(** * job_bot: the application scheduling and execution core

    A shallow embedding of the part of [job_bot.py] that decides whether an
    apply request is a duplicate, whether it runs now or later, how the
    deferred run is registered with the scheduler and how the outcome is
    written to the [Application] table:

    - the SQLAlchemy models [User], [Job], [Application];
    - [run_selenium_apply], [schedule_application], [execute_application];
    - the [/apply_job] handler [apply_job_route];

    and, after it, of the other handlers that work on the same tables:
    [register], [login], [upload_resume_route] with [parse_resume],
    [search_jobs_route] with [scrape_jobs], and [application_status_route].

    The database session, the scheduler's job store and the browser driver
    are ambient mutable objects in the program; here they are fields of an
    explicit [state] threaded through every function. *)

From Stdlib Require Import Ascii String.
From stdpp Require Import gmap strings list fin_maps pretty sorting.

Local Open Scope Z_scope.

(** ** Values *)

(** A naive [datetime.datetime]: a tuple of calendar fields, ordered
    field by field. *)
Record datetime := mk_datetime {
  year : Z; month : Z; day : Z;
  hour : Z; minute : Z; second : Z; microsecond : Z
}.

Definition dt_fields (d : datetime) : list Z :=
  [year d; month d; day d; hour d; minute d; second d; microsecond d].

Fixpoint lex_ltb (a b : list Z) : bool :=
  match a, b with
  | x :: a', y :: b' => (x <? y) || ((x =? y) && lex_ltb a' b')
  | [], _ :: _ => true
  | _, [] => false
  end.

(** [a < b] on naive datetimes. *)
Definition dt_ltb (a b : datetime) : bool := lex_ltb (dt_fields a) (dt_fields b).

(** ** Database models *)

(** [class User(db.Model)]; the primary key [id] is the key of the table. *)
Record User := mk_User {
  email : string;
  password : string;
  user_location : option string;
  experience : option Z;
  resume_path : option string
}.

(** [class Job(db.Model)]; the primary key [id] is the key of the table. *)
Record Job := mk_Job {
  title : string;
  company : string;
  job_location : option string;
  apply_link : option string
}.

(** [class Application(db.Model)]. [status] is the string column with
    default ['Pending']; [applied_at] is the nullable DateTime column. *)
Record Application := mk_Application {
  app_id : Z;
  user_id : Z;
  job_id : Z;
  status : string;
  applied_at : option datetime
}.

Definition Pending : string := "Pending".
Definition Applied : string := "Applied".
(** The spec's third status. No statement of the program writes it. *)
Definition Failed : string := "Failed".

(** ** Scheduler job store *)

(** A job added with the ['date'] trigger: it calls [execute_application]
    with [args] at [run_date]. *)
Record scheduled_job := mk_scheduled_job {
  run_date : datetime;
  args : Z * Z
}.

(** ** Program state *)

Record state := mk_state {
  (** table [user], by primary key *)
  users : gmap Z User;
  (** table [job], by primary key *)
  jobs : gmap Z Job;
  (** table [application], in insertion order *)
  applications : list Application;
  (** the contents of table [application] at each [db.session.commit()],
      most recent first: the points at which another reader can observe it *)
  commits : list (list Application);
  (** [scheduler]: the job store, by job id string *)
  scheduler_jobs : gmap string scheduled_job;
  (** every call made to the browser driver, most recent first, as
      [(apply_link, resume_path)] *)
  selenium_calls : list (option string * option string)
}.

Definition set_applications (apps : list Application) (st : state) : state :=
  mk_state (users st) (jobs st) apps (commits st) (scheduler_jobs st) (selenium_calls st).

(** [db.session.commit()] *)
Definition commit (st : state) : state :=
  mk_state (users st) (jobs st) (applications st)
           (applications st :: commits st) (scheduler_jobs st) (selenium_calls st).

(** ** Exceptions and results *)

Inductive exn :=
  | WebDriverException   (* raised inside [run_selenium_apply] *)
  | TypeError            (* [strptime] on a value that is not a string *)
  | OverflowError.       (* an integer that SQLite cannot hold is bound to a query *)

(** How a call ends: it returns a value or an exception leaves it. *)
Inductive outcome (A : Type) :=
  | Returned (a : A)
  | Raised (e : exn).
Arguments Returned {A} a.
Arguments Raised {A} e.

(** A Flask response: [jsonify(error=...)] or [jsonify(message=...)] with
    its HTTP status code. *)
Inductive body :=
  | error (msg : string)
  | message (msg : string).

Record response := mk_response { code : Z; payload : body }.

(** The three rejections of [/apply_job], under the names the specification
    gives them. *)
Definition NotFound : response := mk_response 400 (error "Invalid IDs").
Definition DuplicateApplication : response := mk_response 400 (error "Already applied").
Definition InvalidSchedule : response := mk_response 400 (error "Invalid datetime").

(** ** Request body of [/apply_job] *)

(** [data.get('schedule_time')]: the key is missing or null, or holds a
    string, or holds some other JSON value (number, boolean, array,
    object), of which only its Python truth value matters. *)
Inductive schedule_field :=
  | Absent
  | Text (s : string)
  | NonText (truthy : bool).

Record apply_request := mk_apply_request {
  req_user_id : option Z;
  req_job_id : option Z;
  req_schedule_time : schedule_field
}.

(** ** Queries by primary key *)

(** The integers an SQLite INTEGER holds: the signed 64-bit ones. *)
Definition sqlite_integer (k : Z) : bool := (- 2 ^ 63 <=? k) && (k <? 2 ^ 63).

(** Whether SQLite can bind an optional integer: [None] is bound as NULL. *)
Definition bindable (o : option Z) : bool :=
  match o with
  | Some z => sqlite_integer z
  | None => true
  end.

(** [Model.query.get(k)]: the row under key [k] with its key, [None] when
    [k] is [None] or no row has it. A key that SQLite cannot hold is in no
    table, and binding it to the query raises [OverflowError]. *)
Definition query_get {A} (table : gmap Z A) (k : option Z) : outcome (option (Z * A)) :=
  match k ≫= (λ k, (k,.) <$> table !! k) with
  | Some row => Returned (Some row)
  | None =>
      match k with
      | Some z => if sqlite_integer z then Returned None else Raised OverflowError
      | None => Returned None
      end
  end.

(** ** Queries on table [application] *)

Definition matches (uid jid : Z) (a : Application) : bool :=
  bool_decide (user_id a = uid) && bool_decide (job_id a = jid).

(** [Application.query.filter_by(user_id=uid, job_id=jid).first()] *)
Fixpoint filter_by_first (uid jid : Z) (apps : list Application) : option Application :=
  match apps with
  | [] => None
  | a :: rest => if matches uid jid a then Some a else filter_by_first uid jid rest
  end.

(** [Application.query.filter_by(user_id=uid, job_id=jid).all()] *)
Definition filter_by_all (uid jid : Z) (apps : list Application) : list Application :=
  List.filter (matches uid jid) apps.

(** The integer primary key given to a new row: one more than the largest
    one in the table. *)
Definition next_id (apps : list Application) : Z :=
  1 + foldr Z.max 0 (app_id <$> apps).

(** [db.session.add(Application(...))] followed by the flush that gives the
    row its key. *)
Definition add_application (uid jid : Z) (st : string) (at_ : option datetime)
    (apps : list Application) : list Application :=
  apps ++ [mk_Application (next_id apps) uid jid st at_].

(** Assigning [status] and [applied_at] on the object returned by
    [.first()]: the first matching row is rewritten in place. *)
Fixpoint update_first (uid jid : Z) (st : string) (at_ : option datetime)
    (apps : list Application) : list Application :=
  match apps with
  | [] => []
  | a :: rest =>
      if matches uid jid a
      then mk_Application (app_id a) (user_id a) (job_id a) st at_ :: rest
      else a :: update_first uid jid st at_ rest
  end.

(** ** Helper functions of the program *)

(** [run_selenium_apply(apply_link, resume_path)]. The browser session is
    outside the program: [browser_ok] says whether starting the driver and
    loading the page go through. When they do not, the exception leaves the
    function after the [finally] clause. *)
Definition run_selenium_apply (browser_ok : bool)
    (link resume : option string) (st : state) : outcome unit * state :=
  let st' := mk_state (users st) (jobs st) (applications st) (commits st)
                      (scheduler_jobs st) ((link, resume) :: selenium_calls st) in
  if browser_ok then (Returned tt, st') else (Raised WebDriverException, st').

(** [f"apply_{user_id}_{job_id}"] *)
Definition job_id_str (uid jid : Z) : string :=
  "apply_" +:+ pretty uid +:+ "_" +:+ pretty jid.

(** [scheduler.add_job(execute_application, 'date', run_date=run_time,
    args=[user_id, job_id], id=job_id_str, replace_existing=True)]: the job
    store keeps one job per id, and a job added under an id in use takes
    the place of the one that was there. *)
Definition add_job (id_ : string) (j : scheduled_job)
    (store : gmap string scheduled_job) : gmap string scheduled_job :=
  <[id_ := j]> store.

Definition schedule_application (uid jid : Z) (run_time : datetime) (st : state) : state :=
  mk_state (users st) (jobs st) (applications st) (commits st)
           (add_job (job_id_str uid jid) (mk_scheduled_job run_time (uid, jid))
                    (scheduler_jobs st))
           (selenium_calls st).

(** [execute_application(user_id, job_id)]; [now] is what
    [datetime.utcnow()] returns. *)
Definition execute_application (now : datetime) (browser_ok : bool)
    (uid jid : Z) (st : state) : outcome unit * state :=
  match users st !! uid, jobs st !! jid with
  | Some user, Some job =>
      match run_selenium_apply browser_ok (apply_link job) (resume_path user) st with
      | (Raised e, st1) => (Raised e, st1)
      | (Returned _, st1) =>
          let apps :=
            match filter_by_first uid jid (applications st1) with
            | Some _ => update_first uid jid Applied (Some now) (applications st1)
            | None => add_application uid jid Applied (Some now) (applications st1)
            end in
          (Returned tt, commit (set_applications apps st1))
      end
  | _, _ => (Returned tt, st)
  end.

Section Route.

(** [datetime.strptime(s, '%Y-%m-%d %H:%M:%S')] on a string: the parsed
    datetime, or [None] for [ValueError]. The parser belongs to the Python
    library; the handler is verified for any parser. *)
Variable strptime : string → option datetime.

(** [apply_job_route()], the handler of [POST /apply_job], on the request
    body [data]. *)
Definition apply_job_route (now : datetime) (browser_ok : bool)
    (data : apply_request) (st : state) : outcome response * state :=
  match query_get (users st) (req_user_id data) with
  | Raised e => (Raised e, st)
  | Returned user =>
  match query_get (jobs st) (req_job_id data) with
  | Raised e => (Raised e, st)
  | Returned job =>
  match user, job with
  | Some (uid, user), Some (jid, job) =>
      match filter_by_first uid jid (applications st) with
      | Some _ => (Returned DuplicateApplication, st)
      | None =>
          let st1 :=
            commit (set_applications
                      (add_application uid jid Pending None (applications st)) st) in
          let immediately :=
            match execute_application now browser_ok uid jid st1 with
            | (Raised e, st2) => (Raised e, st2)
            | (Returned _, st2) =>
                (Returned (mk_response 200 (message "Applied immediately")), st2)
            end in
          match req_schedule_time data with
          | Absent | Text "" | NonText false => immediately
          | NonText true => (Raised TypeError, st1)
          | Text s =>
              match strptime s with
              | Some dt =>
                  (Returned (mk_response 200 (message ("Scheduled at " +:+ s))),
                   schedule_application uid jid dt st1)
              | None => (Returned InvalidSchedule, st1)
              end
          end
      end
  | _, _ => (Returned NotFound, st)
  end
  end
  end.

(** ** Sequences of operations *)

(** The two entry points of the core, each with what the outside world
    supplies when it runs: the clock and the behaviour of the browser. *)
Inductive op :=
  | RequestApplication (now : datetime) (browser_ok : bool) (data : apply_request)
  | Execute (now : datetime) (browser_ok : bool) (uid jid : Z).

Definition run_op (st : state) (o : op) : state :=
  match o with
  | RequestApplication now ok data => (apply_job_route now ok data st).2
  | Execute now ok uid jid => (execute_application now ok uid jid st).2
  end.

Definition run_ops (os : list op) (st : state) : state := foldl run_op st os.

End Route.

(** * What is stated about the program *)

(** At most one row per [(user_id, job_id)] pair in a table. *)
Definition at_most_one (apps : list Application) : Prop :=
  ∀ uid jid, (length (filter_by_all uid jid apps) ≤ 1)%nat.

(** The table and every committed snapshot of it hold at most one row per
    pair. *)
Definition unique_pairs (st : state) : Prop :=
  at_most_one (applications st) ∧ Forall at_most_one (commits st).

(** Two rows that are the same record: same key, same user, same job. *)
Definition same_identity (a b : Application) : Prop :=
  app_id a = app_id b ∧ user_id a = user_id b ∧ job_id a = job_id b.

(** [new] holds every row of [old], in place and with its identity, and
    possibly more rows after them. *)
Definition extends (old new : list Application) : Prop :=
  ∃ kept added, new = kept ++ added ∧ Forall2 same_identity old kept.

(** Whether a string holds the character that separates the fields of a
    job id. *)
Fixpoint has_underscore (s : string) : bool :=
  match s with
  | EmptyString => false
  | String c rest => Ascii.eqb c "_" || has_underscore rest
  end.

(** The run dates of the jobs in the store that call
    [execute_application(uid, jid)]. It reads the store as it is; whether
    and when the scheduler runs a job is outside the program. *)
Definition stored_run_dates (uid jid : Z) (store : gmap string scheduled_job) : list datetime :=
  run_date <$> filter (λ j, args j = (uid, jid)) ((map_to_list store).*2).

(** Every job sits under the id computed from its own arguments, as it
    does when every job was added by [schedule_application]. *)
Definition well_keyed (store : gmap string scheduled_job) : Prop :=
  map_Forall (λ k j, k = job_id_str (args j).1 (args j).2) store.

(** The foreign keys of table [application]: every row refers to a user
    and a job that are in their tables. *)
Definition fk_ok (st : state) : Prop :=
  Forall (λ a, is_Some (users st !! user_id a) ∧ is_Some (jobs st !! job_id a))
         (applications st).

(** The state after the handler has added the [Pending] row and committed. *)
Definition pending_committed (uid jid : Z) (st : state) : state :=
  commit (set_applications (add_application uid jid Pending None (applications st)) st).

(** What the specification asks of a schedule time: it parses, and to an
    instant after [now]. *)
Definition valid_future (strptime : string → option datetime)
    (now : datetime) (s : string) : Prop :=
  ∃ dt, strptime s = Some dt ∧ dt_ltb now dt = true.

(** ** A parser for the examples *)

(** The library's [strptime] for the format ['%Y-%m-%d %H:%M:%S'], on the
    strings that write every field with leading zeros
    ([YYYY-MM-DD HH:MM:SS]); any other string is rejected here. It is the
    parser at which the general statements are evaluated on concrete
    requests. *)

Definition digit_of (c : ascii) : option Z :=
  let n := Z.of_N (N_of_ascii c) in
  if (48 <=? n) && (n <=? 57) then Some (n - 48) else None.

Definition number_of (cs : list ascii) : option Z :=
  foldl (λ acc c, n ← acc; d ← digit_of c; Some (10 * n + d)) (Some 0) cs.

Definition is_leap (y : Z) : bool :=
  (y mod 4 =? 0) && (negb (y mod 100 =? 0) || (y mod 400 =? 0)).

Definition days_in_month (y m : Z) : Z :=
  if m =? 2 then (if is_leap y then 29 else 28)
  else if (m =? 4) || (m =? 6) || (m =? 9) || (m =? 11) then 30
  else 31.

Definition strptime_padded (s : string) : option datetime :=
  match String.list_ascii_of_string s with
  | [y1; y2; y3; y4; "-"; m1; m2; "-"; d1; d2; " ";
     h1; h2; ":"; n1; n2; ":"; s1; s2]%char =>
      y ← number_of [y1; y2; y3; y4];
      m ← number_of [m1; m2];
      d ← number_of [d1; d2];
      h ← number_of [h1; h2];
      n ← number_of [n1; n2];
      sec ← number_of [s1; s2];
      if (1 <=? y) && (1 <=? m) && (m <=? 12) && (1 <=? d) && (d <=? days_in_month y m)
         && (h <=? 23) && (n <=? 59) && (sec <=? 59)
      then Some (mk_datetime y m d h n sec 0)
      else None
  | _ => None
  end.

(** ** Example stores *)

Definition alice : User :=
  mk_User "alice@example.com" "pw" (Some "Berlin") (Some 3) (Some "uploads/cv.pdf").

Definition job_ds : Job :=
  mk_Job "Data Scientist" "ABC Corp" (Some "Berlin") (Some "https://example.com/apply/123").

(** One user (id 1), one job (id 1), no application, nothing scheduled. *)
Definition store0 : state :=
  mk_state {[1 := alice]} {[1 := job_ds]} [] [] ∅ [].

(** The same with one application row of the given status and time. *)
Definition store_with (st : string) (at_ : option datetime) : state :=
  mk_state {[1 := alice]} {[1 := job_ds]} [mk_Application 1 1 1 st at_]
           [[mk_Application 1 1 1 st at_]] ∅ [].

Definition t2026 : datetime := mk_datetime 2026 11 3 12 0 0 0.
Definition t2027 : datetime := mk_datetime 2027 1 1 8 0 0 0.

(** Requests for user 1 and job 1. *)
Definition apply_now : apply_request := mk_apply_request (Some 1) (Some 1) Absent.
Definition apply_at (s : string) : apply_request :=
  mk_apply_request (Some 1) (Some 1) (Text s).

Definition some_ops : list op :=
  [ RequestApplication t2026 true (apply_at "2027-01-01 08:00:00");
    RequestApplication t2026 true apply_now;
    Execute t2027 false 1 1;
    Execute t2027 true 1 1;
    Execute t2027 true 1 1 ].

(** * The other handlers *)

(** ** JSON replies *)

Local Set Warnings "-register-all".

(** The value handed to [jsonify]. *)
Inductive json :=
  | JNull
  | JNum (n : Z)
  | JStr (s : string)
  | JArr (items : list json)
  | JObj (fields : list (string * json)).

Record reply := mk_reply { reply_code : Z; reply_body : json }.

(** [jsonify(k1=v1, ...), code] *)
Definition jsonify (fields : list (string * json)) (c : Z) : reply :=
  mk_reply c (JObj fields).

(** A nullable string column in a reply: the string, or [null]. *)
Definition json_text (o : option string) : json :=
  match o with Some s => JStr s | None => JNull end.

(** ** Tables by primary key *)

#[global] Instance User_eq_dec : EqDecision User.
Proof. solve_decision. Defined.

#[global] Instance Job_eq_dec : EqDecision Job.
Proof. solve_decision. Defined.

(** The rows of a table in the order of their keys, the order in which an
    unordered query returns them. *)
Definition key_le {A} (x y : Z * A) : Prop := x.1 ≤ y.1.

#[global] Instance key_le_dec {A} : RelDecision (@key_le A).
Proof. intros x y. unfold key_le. apply _. Defined.

Definition rows {A} (m : gmap Z A) : list (Z * A) :=
  merge_sort key_le (map_to_list m).

(** The integer primary key given to a new row of a keyed table: one more
    than the largest one in it. *)
Definition next_key {A} (m : gmap Z A) : Z :=
  1 + map_fold (λ k _ acc, Z.max k acc) 0 m.

Definition set_users (us : gmap Z User) (st : state) : state :=
  mk_state us (jobs st) (applications st) (commits st) (scheduler_jobs st)
           (selenium_calls st).

Definition set_jobs (js : gmap Z Job) (st : state) : state :=
  mk_state (users st) js (applications st) (commits st) (scheduler_jobs st)
           (selenium_calls st).

(** [User.query.filter_by(email=e).first()]. The column is not nullable, so
    no row matches when [e] is [None]. *)
Definition filter_by_email (e : option string) (us : gmap Z User) : option (Z * User) :=
  e' ← e; snd <$> list_find (λ r, email r.2 = e') (rows us).

(** [Job.query.filter_by(title=.., company=.., location=.., apply_link=..)
    .first()]: the first job whose four columns are the given ones. *)
Definition filter_by_job (j : Job) (js : gmap Z Job) : option (Z * Job) :=
  snd <$> list_find (λ r, r.2 = j) (rows js).

(** ** [/register] and [/login] *)

(** The JSON body of [/register]; a field is [None] when the key is
    missing or null. *)
Record register_request := mk_register_request {
  reg_email : option string;
  reg_password : option string;
  reg_location : option string;
  reg_experience : option Z
}.

Record login_request := mk_login_request {
  login_email : option string;
  login_password : option string
}.

Definition credentials_required : reply :=
  jsonify [("error", JStr "Email and password required")] 400.
Definition email_exists : reply := jsonify [("error", JStr "Email exists")] 400.
Definition registered : reply := jsonify [("message", JStr "Registered")] 201.
Definition invalid_credentials : reply :=
  jsonify [("error", JStr "Invalid credentials")] 401.
Definition login_successful (uid : Z) : reply :=
  jsonify [("message", JStr "Login successful"); ("user_id", JNum uid)] 200.
Definition invalid_user_id : reply := jsonify [("error", JStr "Invalid user ID")] 400.

(** [register()]. The INSERT sent by [commit] raises [OverflowError] when
    [experience] is an integer that SQLite cannot hold; nothing is stored
    then. *)
Definition register (data : register_request) (st : state) : outcome reply * state :=
  match reg_email data, reg_password data with
  | Some e, Some p =>
      if bool_decide (e = "") || bool_decide (p = "")
      then (Returned credentials_required, st)
      else
        match filter_by_email (Some e) (users st) with
        | Some _ => (Returned email_exists, st)
        | None =>
            let user := mk_User e p (reg_location data) (reg_experience data) None in
            if bindable (reg_experience data)
            then (Returned registered,
                  commit (set_users (<[next_key (users st) := user]> (users st)) st))
            else (Raised OverflowError, st)
        end
  | _, _ => (Returned credentials_required, st)
  end.

(** [login()]. It writes nothing, so it returns the reply alone. *)
Definition login (data : login_request) (st : state) : reply :=
  match filter_by_email (login_email data) (users st) with
  | Some (uid, user) =>
      if bool_decide (Some (password user) = login_password data)
      then login_successful uid
      else invalid_credentials
  | None => invalid_credentials
  end.

(** ** [/search_jobs] *)

(** [scrape_jobs(keyword, location)]: the placeholder result, one job at
    the given location. *)
Definition scrape_jobs (keyword : string) (location : option string) : list Job :=
  [mk_Job "Data Scientist" "ABC Corp" location (Some "https://example.com/apply/123")].

Definition job_entry (k : Z) (j : Job) : json :=
  JObj [("job_id", JNum k); ("title", JStr (title j)); ("company", JStr (company j));
        ("location", json_text (job_location j));
        ("apply_link", json_text (apply_link j))].

(** One turn of the loop of [search_jobs_route]: look the scraped job up,
    store it when it is not there, and append its entry. *)
Definition search_step (acc : list json * state) (j : Job) : list json * state :=
  let '(response, st) := acc in
  match filter_by_job j (jobs st) with
  | Some (k, job) => (response ++ [job_entry k job], st)
  | None =>
      let k := next_key (jobs st) in
      (response ++ [job_entry k j], commit (set_jobs (<[k := j]> (jobs st)) st))
  end.

(** [search_jobs_route()], on the query parameters [user_id] and
    [keyword]. [user_id] is the key the lookup is made with, [None] when
    the parameter is missing or is not a key. *)
Definition search_jobs_route (uid : option Z) (keyword : string) (st : state)
    : reply * state :=
  match uid ≫= (users st !!.) with
  | None => (invalid_user_id, st)
  | Some user =>
      let '(response, st') :=
        foldl search_step ([], st) (scrape_jobs keyword (user_location user)) in
      (jsonify [("jobs", JArr response)] 200, st')
  end.

(** ** [/application_status] *)

(** How a call of one of these handlers ends otherwise than by a reply. *)
Inductive failure :=
  | AttributeError    (* an attribute of [None] is read *)
  | ExtractionError.  (* the uploaded file cannot be read as a PDF *)

Inductive ending (A : Type) :=
  | Completes (a : A)
  | Fails (e : failure).
Arguments Completes {A} a.
Arguments Fails {A} e.

(** [Application.query.filter_by(user_id=uid).all()] *)
Definition filter_by_user (uid : Z) (apps : list Application) : list Application :=
  List.filter (λ a, bool_decide (user_id a = uid)) apps.

Section Status.

(** [datetime.isoformat()], of the Python library. *)
Variable isoformat : datetime → string.

(** The entry of one application; reading [job.title] fails when the job
    is not in its table. *)
Definition status_entry (js : gmap Z Job) (a : Application) : ending json :=
  match js !! job_id a with
  | None => Fails AttributeError
  | Some job =>
      Completes
        (JObj [("application_id", JNum (app_id a));
               ("job_title", JStr (title job));
               ("company", JStr (company job));
               ("status", JStr (status a));
               ("applied_at",
                match applied_at a with
                | Some t => JStr (isoformat t)
                | None => JNull
                end)])
  end.

Fixpoint status_entries (js : gmap Z Job) (apps : list Application)
    : ending (list json) :=
  match apps with
  | [] => Completes []
  | a :: rest =>
      match status_entry js a with
      | Fails e => Fails e
      | Completes x =>
          match status_entries js rest with
          | Fails e => Fails e
          | Completes xs => Completes (x :: xs)
          end
      end
  end.

(** [application_status_route()], on the query parameter [user_id]. It
    writes nothing. *)
Definition application_status_route (uid : option Z) (st : state) : ending reply :=
  match uid ≫= (λ k, (k,.) <$> users st !! k) with
  | None => Completes invalid_user_id
  | Some (k, user) =>
      match status_entries (jobs st) (filter_by_user k (applications st)) with
      | Fails e => Fails e
      | Completes result => Completes (jsonify [("applications", JArr result)] 200)
      end
  end.

End Status.

(** ** [parse_resume] and [/upload_resume] *)

(** What the handler reads of the spaCy document: the entities with their
    label and text, the tokens with their text and stop-word flag. *)
Record entity := mk_entity { label_ : string; ent_text : string }.
Record token := mk_token { tok_text : string; is_stop : bool }.
Record spacy_doc := mk_doc { ents : list entity; doc_tokens : list token }.

(** The dictionary [parsed]. *)
Record parsed_resume := mk_parsed {
  parsed_name : option string;
  parsed_email : option string;
  parsed_skills : list string
}.

Definition known_skills : list string :=
  ["python"; "sql"; "tableau"; "power bi"; "machine learning"; "excel"].

(** A Python string or [None] as a condition. *)
Definition text_truthy (o : option string) : bool :=
  match o with
  | Some (String _ _) => true
  | _ => false
  end.

(** One turn of the loop over [doc.ents], on the pair (name, email). *)
Definition entity_step (acc : option string * option string) (e : entity)
    : option string * option string :=
  if bool_decide (label_ e = "PERSON") && negb (text_truthy acc.1)
  then (Some (ent_text e), acc.2)
  else if bool_decide (label_ e = "EMAIL") then (acc.1, Some (ent_text e))
  else acc.

(** An uploaded file: [file.filename] and what [file.save] writes. As a
    condition, a file with an empty [filename] is false. *)
Record file_storage := mk_file { filename : string; content : string }.

Definition starts_with_slash (s : string) : bool :=
  match s with
  | String c _ => Ascii.eqb c "/"
  | EmptyString => false
  end.

Fixpoint ends_with_slash (s : string) : bool :=
  match s with
  | EmptyString => false
  | String c EmptyString => Ascii.eqb c "/"
  | String _ rest => ends_with_slash rest
  end.

(** [os.path.join(a, b)] on a POSIX system. *)
Definition path_join (a b : string) : string :=
  if starts_with_slash b then b
  else if bool_decide (a = "") || ends_with_slash a then a +:+ b
  else a +:+ "/" +:+ b.

Definition no_file_uploaded : reply := jsonify [("error", JStr "No file uploaded")] 400.

Definition parsed_json (p : parsed_resume) : json :=
  JObj [("name", json_text (parsed_name p));
        ("email", json_text (parsed_email p));
        ("skills", JArr (JStr <$> parsed_skills p))].

Definition set_resume_path (path : string) (u : User) : User :=
  mk_User (email u) (password u) (user_location u) (experience u) (Some path).

Section Upload.

(** The library functions the upload path goes through: [str.lower],
    [pdfminer]'s [extract_text] on the bytes of a file ([None] when it
    raises), the spaCy pipeline [nlp], [werkzeug]'s [secure_filename]; and
    the configured [UPLOAD_FOLDER]. *)
Variable lower : string → string.
Variable extract_text : string → option string.
Variable nlp : string → spacy_doc.
Variable secure_filename : string → string.
Variable upload_folder : string.

(** The body of [parse_resume] from the document on. *)
Definition parse_doc (d : spacy_doc) : parsed_resume :=
  let found := foldl entity_step (None, None) (ents d) in
  let tokens :=
    (λ t, lower (tok_text t)) <$> filter (λ t, is_stop t = false) (doc_tokens d) in
  mk_parsed found.1 found.2 (filter (λ s, s ∈ tokens) known_skills).

(** [parse_resume(file_path, nlp)], on the bytes stored at [file_path]. *)
Definition parse_resume (bytes : string) : option parsed_resume :=
  parse_doc ∘ nlp <$> extract_text bytes.

(** [upload_resume_route()], on the form field [user_id], the uploaded
    file and the value of [uuid.uuid4()]. Beside the reply and the state it
    returns the file written by [file.save], if any, as [(path, bytes)]. *)
Definition upload_resume_route (uid : option Z) (file : option file_storage)
    (uuid4 : string) (st : state)
    : ending reply * state * option (string * string) :=
  match uid ≫= (λ k, (k,.) <$> users st !! k) with
  | None => (Completes invalid_user_id, st, None)
  | Some (k, user) =>
      match file with
      | None => (Completes no_file_uploaded, st, None)
      | Some f =>
          if bool_decide (filename f = "") then (Completes no_file_uploaded, st, None)
          else
            let unique := uuid4 +:+ "_" +:+ secure_filename (filename f) in
            let path := path_join upload_folder unique in
            let saved := Some (path, content f) in
            match parse_resume (content f) with
            | None => (Fails ExtractionError, st, saved)
            | Some parsed =>
                (Completes (jsonify [("message", JStr "Uploaded");
                                     ("parsed_data", parsed_json parsed)] 200),
                 commit (set_users (<[k := set_resume_path path user]> (users st)) st),
                 saved)
            end
      end
  end.

End Upload.

(** ** Every entry point *)

Section Site.

Variable strptime : string → option datetime.
Variable lower : string → string.
Variable extract_text : string → option string.
Variable nlp : string → spacy_doc.
Variable secure_filename : string → string.
Variable upload_folder : string.

(** A call into the program: one of the six routes, or the scheduler
    running [execute_application]. *)
Inductive call :=
  | CallRegister (data : register_request)
  | CallLogin (data : login_request)
  | CallUpload (uid : option Z) (file : option file_storage) (uuid4 : string)
  | CallSearch (uid : option Z) (keyword : string)
  | CallApply (now : datetime) (browser_ok : bool) (data : apply_request)
  | CallStatus (uid : option Z)
  | CallExecute (now : datetime) (browser_ok : bool) (uid jid : Z).

(** The state a call leaves. *)
Definition serve (st : state) (c : call) : state :=
  match c with
  | CallRegister data => (register data st).2
  | CallLogin _ => st
  | CallUpload uid file uuid4 =>
      (upload_resume_route lower extract_text nlp secure_filename upload_folder
         uid file uuid4 st).1.2
  | CallSearch uid keyword => (search_jobs_route uid keyword st).2
  | CallApply now ok data => (apply_job_route strptime now ok data st).2
  | CallStatus _ => st
  | CallExecute now ok uid jid => (execute_application now ok uid jid st).2
  end.

Definition serve_all (cs : list call) (st : state) : state := foldl serve st cs.

End Site.

(** ** Invariants of the tables *)

(** No two users share an email address. *)
Definition unique_emails (us : gmap Z User) : Prop :=
  ∀ i j u v, us !! i = Some u → us !! j = Some v → email u = email v → i = j.

(** Every row is either [Pending] with no [applied_at] or [Applied] with
    one. *)
Definition status_ok (a : Application) : Prop :=
  (status a = Pending ∧ applied_at a = None)
  ∨ (status a = Applied ∧ is_Some (applied_at a)).

(** Every job in the scheduler sits under the id of its pair, and the pair
    has its user, its job and its application row. *)
Definition scheduled_ok (st : state) : Prop :=
  map_Forall (λ k j,
    k = job_id_str (args j).1 (args j).2
    ∧ is_Some (users st !! (args j).1)
    ∧ is_Some (jobs st !! (args j).2)
    ∧ is_Some (filter_by_first (args j).1 (args j).2 (applications st)))
    (scheduler_jobs st).

(** Nothing is lost from [st] to [st']: a user keeps key, email and
    password, a job keeps key and columns, an application row keeps its
    place and its identity. *)
Definition grows (st st' : state) : Prop :=
  (∀ k u, users st !! k = Some u →
     ∃ u', users st' !! k = Some u' ∧ email u' = email u ∧ password u' = password u)
  ∧ (∀ k j, jobs st !! k = Some j → jobs st' !! k = Some j)
  ∧ extends (applications st) (applications st').

(** The three writes the program makes to table [application]: the first
    row of a pair is set to [Applied] with a time, or a row is added for a
    pair that has none, [Pending] without a time or [Applied] with one. *)
Inductive table_step (old : list Application) : list Application → Prop :=
  | step_update uid jid now :
      table_step old (update_first uid jid Applied (Some now) old)
  | step_add_pending uid jid :
      filter_by_first uid jid old = None →
      table_step old (add_application uid jid Pending None old)
  | step_add_applied uid jid now :
      filter_by_first uid jid old = None →
      table_step old (add_application uid jid Applied (Some now) old).

(** The job that [scrape_jobs] returns for a user. *)
Definition scraped_for (user : User) : Job :=
  mk_Job "Data Scientist" "ABC Corp" (user_location user)
         (Some "https://example.com/apply/123").

(** ** Stand-ins for the libraries, for the examples *)

(** [str.lower] on ASCII letters. *)
Definition lower_char (c : ascii) : ascii :=
  let n := N_of_ascii c in
  if ((65 <=? n) && (n <=? 90))%N then ascii_of_N (n + 32) else c.

Fixpoint lower_ascii (s : string) : string :=
  match s with
  | EmptyString => EmptyString
  | String c rest => String (lower_char c) (lower_ascii rest)
  end.

(** A document with two people, an address and a few words. *)
Definition example_doc : spacy_doc :=
  mk_doc [mk_entity "ORG" "ABC Corp"; mk_entity "PERSON" "";
          mk_entity "PERSON" "Ada Lovelace"; mk_entity "EMAIL" "ada@example.com";
          mk_entity "PERSON" "Charles Babbage"; mk_entity "EMAIL" "ada@work.example"]
         [mk_token "I" true; mk_token "know" false; mk_token "SQL" false;
          mk_token "and" true; mk_token "Python" false; mk_token "excel" true;
          mk_token "machine" false; mk_token "learning" false].

(** A reader that accepts the files that start like a PDF, and a pipeline
    that finds [example_doc] in every text. *)
Definition extract_text_example (bytes : string) : option string :=
  if String.prefix "%PDF" bytes then Some bytes else None.
Definition nlp_example (text : string) : spacy_doc := example_doc.
Definition secure_filename_example (s : string) : string := s.

(** [isoformat] for two-digit fields, four-digit years and no
    microseconds. *)
Definition two_digits (z : Z) : string :=
  if z <? 10 then "0" +:+ pretty z else pretty z.
Definition isoformat_example (t : datetime) : string :=
  pretty (year t) +:+ "-" +:+ two_digits (month t) +:+ "-" +:+ two_digits (day t)
  +:+ "T" +:+ two_digits (hour t) +:+ ":" +:+ two_digits (minute t)
  +:+ ":" +:+ two_digits (second t).

(** Calls that go through every entry point. *)
Definition some_calls : list call :=
  [ CallRegister (mk_register_request (Some "bob@example.com") (Some "pw2") None None);
    CallRegister (mk_register_request (Some "alice@example.com") (Some "x") None None);
    CallLogin (mk_login_request (Some "bob@example.com") (Some "pw2"));
    CallSearch (Some 2) "data";
    CallSearch (Some 1) "data";
    CallUpload (Some 2) (Some (mk_file "cv.pdf" "%PDF-1.4 ...")) "0f8fad5b";
    CallApply t2026 true (mk_apply_request (Some 2) (Some 2) Absent);
    CallApply t2026 false (mk_apply_request (Some 1) (Some 2) Absent);
    CallApply t2026 true (mk_apply_request (Some 1) (Some 1) (Text "2027-01-01 08:00:00"));
    CallStatus (Some 1);
    CallExecute t2027 true 1 1;
    CallExecute t2027 true 2 1 ].

Definition serve_example : list call → state → state :=
  serve_all strptime_padded lower_ascii extract_text_example nlp_example
            secure_filename_example "uploads".

Definition bob_request : register_request :=
  mk_register_request (Some "bob@example.com") (Some "pw2") None (Some 4).

Definition cv_file : file_storage := mk_file "cv.pdf" "%PDF-1.4 ...".

Definition upload_example :=
  upload_resume_route lower_ascii extract_text_example nlp_example
                      secure_filename_example "uploads".

(** The empty database: no user, no job, no application, nothing
    scheduled. *)
Definition empty_db : state := mk_state ∅ ∅ [] [] ∅ [].

(** * Properties *)

(** ** Queries *)

Lemma filter_by_all_app uid jid l1 l2 :
  filter_by_all uid jid (l1 ++ l2) = filter_by_all uid jid l1 ++ filter_by_all uid jid l2.
Proof. unfold filter_by_all. apply List.filter_app. Qed.

Lemma filter_by_first_None uid jid apps :
  filter_by_first uid jid apps = None ↔ filter_by_all uid jid apps = [].
Proof.
  induction apps as [|a rest IH]; simpl; [done|].
  destruct (matches uid jid a); [split; discriminate | exact IH].
Qed.

Lemma filter_by_first_Some uid jid apps a :
  filter_by_first uid jid apps = Some a →
  a ∈ apps ∧ user_id a = uid ∧ job_id a = jid.
Proof.
  induction apps as [|b rest IH]; simpl; [done|].
  destruct (matches uid jid b) eqn:Hm.
  - intros [= ->]. split; [left|].
    unfold matches in Hm. apply andb_prop in Hm as [H1 H2].
    by apply bool_decide_eq_true in H1, H2.
  - intros H. destruct (IH H) as (? & ? & ?). split; [by right | done].
Qed.

Lemma filter_by_first_is_Some uid jid apps a :
  a ∈ apps → user_id a = uid → job_id a = jid →
  is_Some (filter_by_first uid jid apps).
Proof.
  intros Hin Hu Hj. induction Hin as [a rest | a b rest Hin IH]; simpl.
  - unfold matches. rewrite !bool_decide_eq_true_2 by done. simpl. eauto.
  - destruct (matches uid jid b); eauto.
Qed.

Lemma matches_update uid jid a st at_ :
  matches uid jid (mk_Application (app_id a) (user_id a) (job_id a) st at_)
  = matches uid jid a.
Proof. done. Qed.

(** Rewriting status and time of a row moves no row in or out of any
    pair's result set. *)
Lemma update_first_filter_length uid jid st at_ uid' jid' apps :
  length (filter_by_all uid' jid' (update_first uid jid st at_ apps))
  = length (filter_by_all uid' jid' apps).
Proof.
  induction apps as [|a rest IH]; simpl; [done|].
  destruct (matches uid jid a); simpl.
  - rewrite matches_update. by destruct (matches uid' jid' a).
  - destruct (matches uid' jid' a); simpl; by rewrite IH.
Qed.

Lemma update_first_at_most_one uid jid st at_ apps :
  at_most_one apps → at_most_one (update_first uid jid st at_ apps).
Proof. intros H u j. rewrite update_first_filter_length. apply H. Qed.

Lemma add_application_at_most_one uid jid st at_ apps :
  filter_by_first uid jid apps = None →
  at_most_one apps → at_most_one (add_application uid jid st at_ apps).
Proof.
  intros Hnone H u j. unfold add_application.
  rewrite filter_by_all_app, length_app. simpl.
  destruct (matches u j _) eqn:Hm; simpl; [|specialize (H u j); lia].
  unfold matches in Hm. simpl in Hm. apply andb_prop in Hm as [H1 H2].
  apply bool_decide_eq_true in H1, H2. subst u j.
  apply filter_by_first_None in Hnone. rewrite Hnone. simpl. lia.
Qed.

(** ** The request's ids *)

Lemma resolve_Some {A} (m : gmap Z A) (k : option Z) uid x :
  k ≫= (λ k, (k,.) <$> m !! k) = Some (uid, x) ↔ k = Some uid ∧ m !! uid = Some x.
Proof.
  destruct k as [k|]; simpl; [|split; [done | by intros [? _]]].
  split.
  - destruct (m !! k) as [y|] eqn:Hk; simpl; [|done]. by intros [= -> ->].
  - intros [[= ->] ->]. done.
Qed.

Lemma resolve_None {A} (m : gmap Z A) (k : option Z) :
  k ≫= (λ k, (k,.) <$> m !! k) = None ↔ k ≫= (m !!.) = None.
Proof.
  destruct k as [k|]; simpl; [|done].
  by destruct (m !! k).
Qed.

(** The two ways a lookup by key ends. *)
Lemma query_get_cases {A} (table : gmap Z A) (k : option Z) :
  (∃ uid x, k = Some uid ∧ table !! uid = Some x
            ∧ query_get table k = Returned (Some (uid, x)))
  ∨ (k ≫= (table !!.) = None
     ∧ query_get table k
       = if bindable k then Returned None else Raised OverflowError).
Proof.
  unfold query_get.
  destruct (k ≫= (λ k, (k,.) <$> table !! k)) as [[uid x]|] eqn:Hk.
  - apply resolve_Some in Hk as [-> Hk]. left. by exists uid, x.
  - apply resolve_None in Hk. right. split; [done|]. by destruct k.
Qed.

Lemma query_get_Some {A} (table : gmap Z A) k uid x :
  k = Some uid → table !! uid = Some x →
  query_get table k = Returned (Some (uid, x)).
Proof. intros -> H. unfold query_get. simpl. by rewrite H. Qed.

(** Case analysis on the two lookups of the handler: the goal in which
    both ids resolve comes first, then the ones in which the handler
    leaves with "Invalid IDs" or with the error of a lookup. *)
Ltac route_lookups st data uid user jid job Hu Hus Hj Hjs :=
  unfold apply_job_route;
  destruct (query_get_cases (users st) (req_user_id data))
    as [(uid & user & Hu & Hus & ->)|[_ ->]];
  [ destruct (query_get_cases (jobs st) (req_job_id data))
      as [(jid & job & Hj & Hjs & ->)|[_ ->]];
    [ | destruct (bindable (req_job_id data)) ]
  | destruct (bindable (req_user_id data));
    [ destruct (query_get (jobs st) (req_job_id data)) as [[[? ?]|]|] | ] ];
  cbn beta iota.

(** ** Invariant I1 *)

Lemma execute_application_unique now ok uid jid st :
  unique_pairs st → unique_pairs (execute_application now ok uid jid st).2.
Proof.
  intros [Ha Hc]. unfold execute_application.
  destruct (users st !! uid) as [user|]; [|done].
  destruct (jobs st !! jid) as [job|]; [|done].
  unfold run_selenium_apply. destruct ok; simpl; [|done].
  assert (at_most_one
    match filter_by_first uid jid (applications st) with
    | Some _ => update_first uid jid Applied (Some now) (applications st)
    | None => add_application uid jid Applied (Some now) (applications st)
    end) as Hnew.
  { destruct (filter_by_first uid jid (applications st)) eqn:Hf.
    - by apply update_first_at_most_one.
    - by apply add_application_at_most_one. }
  split; [done|]. by constructor.
Qed.

Section RouteProperties.

Variable strptime : string → option datetime.

Lemma apply_job_route_unique now ok data st :
  unique_pairs st → unique_pairs (apply_job_route strptime now ok data st).2.
Proof.
  intros [Ha Hc].
  route_lookups st data uid user jid job Hu Hus Hj Hjs; [|done..].
  destruct (filter_by_first uid jid (applications st)) eqn:Hf; [done|].
  set (st1 := commit _).
  assert (unique_pairs st1) as H1.
  { assert (at_most_one (add_application uid jid Pending None (applications st)))
      by by apply add_application_at_most_one.
    split; [done|]. by constructor. }
  assert (unique_pairs
    (match execute_application now ok uid jid st1 with
     | (Raised e, st2) => (Raised e, st2)
     | (Returned _, st2) =>
         (Returned (mk_response 200 (message "Applied immediately")), st2)
     end).2) as Himm.
  { pose proof (execute_application_unique now ok uid jid st1 H1) as H.
    destruct (execute_application now ok uid jid st1) as [[?|?] ?]; exact H. }
  destruct (req_schedule_time data) as [|s|[]]; try done.
  destruct s as [|c s]; [done|].
  destruct (strptime _); done.
Qed.

Lemma run_op_unique st o :
  unique_pairs st → unique_pairs (run_op strptime st o).
Proof.
  destruct o; simpl; [apply apply_job_route_unique | apply execute_application_unique].
Qed.

Lemma run_ops_unique os st :
  unique_pairs st → unique_pairs (run_ops strptime os st).
Proof.
  revert st. induction os as [|o os IH]; intros st H; simpl; [done|].
  apply IH. by apply run_op_unique.
Qed.

(** C1. Starting from a table, and a commit history, with at most one
    row per [(user_id, job_id)] pair, after any sequence of
    [RequestApplication] and [Execute] operations the table holds at most
    one row for every pair, and so does every snapshot committed on the
    way (the observation points). *)
Theorem at_most_one_record_per_pair (st : state) (os : list op) (uid jid : Z) :
  at_most_one (applications st) →
  Forall at_most_one (commits st) →
  (length (filter_by_all uid jid (applications (run_ops strptime os st))) ≤ 1)%nat
  ∧ Forall (λ snapshot, (length (filter_by_all uid jid snapshot) ≤ 1)%nat)
           (commits (run_ops strptime os st)).
Proof.
  intros Ha Hc.
  destruct (run_ops_unique os st (conj Ha Hc)) as [Ha' Hc'].
  split; [apply Ha'|].
  eapply Forall_impl; [exact Hc'|]. intros snapshot H. apply H.
Qed.

End RouteProperties.

(** ** Rows are kept *)

Lemma same_identity_refl a : same_identity a a.
Proof. done. Qed.

Lemma same_identity_trans a b c :
  same_identity a b → same_identity b c → same_identity a c.
Proof. unfold same_identity. intros (?&?&?) (?&?&?). repeat split; congruence. Qed.

Lemma Forall2_same_identity_refl l : Forall2 same_identity l l.
Proof. induction l; constructor; auto using same_identity_refl. Qed.

Lemma extends_refl l : extends l l.
Proof. exists l, []. split; [by rewrite app_nil_r | apply Forall2_same_identity_refl]. Qed.

Lemma extends_trans l1 l2 l3 : extends l1 l2 → extends l2 l3 → extends l1 l3.
Proof.
  intros (k1 & a1 & -> & H1) (k2 & a2 & -> & H2).
  apply Forall2_app_inv_l in H2 as (k1' & a1' & Hk & Ha & ->).
  exists k1', (a1' ++ a2). split; [by rewrite app_assoc|].
  clear -H1 Hk. revert k1' Hk.
  induction H1 as [|x y l l' Hxy _ IH]; intros k1' Hk.
  - apply Forall2_nil_inv_l in Hk as ->. constructor.
  - apply Forall2_cons_inv_l in Hk as (z & k' & Hyz & Hk & ->).
    constructor; [by eapply same_identity_trans | by apply IH].
Qed.

Lemma update_first_same_identity uid jid st at_ apps :
  Forall2 same_identity apps (update_first uid jid st at_ apps).
Proof.
  induction apps as [|a rest IH]; simpl; [constructor|].
  destruct (matches uid jid a); constructor; try done.
  apply Forall2_same_identity_refl.
Qed.

Lemma extends_update_first uid jid st at_ apps :
  extends apps (update_first uid jid st at_ apps).
Proof.
  exists (update_first uid jid st at_ apps), [].
  split; [by rewrite app_nil_r | apply update_first_same_identity].
Qed.

Lemma extends_add_application uid jid st at_ apps :
  extends apps (add_application uid jid st at_ apps).
Proof. eexists apps, [_]. split; [done | apply Forall2_same_identity_refl]. Qed.

Lemma matches_same_identity uid jid a b :
  same_identity a b → matches uid jid a = matches uid jid b.
Proof. intros (_ & Hu & Hj). unfold matches. by rewrite Hu, Hj. Qed.

Lemma filter_by_first_extends uid jid old new :
  extends old new →
  is_Some (filter_by_first uid jid old) → is_Some (filter_by_first uid jid new).
Proof.
  intros (kept & added & -> & H). induction H as [|a b l l' Hab _ IH]; simpl.
  - by intros [? [=]].
  - rewrite (matches_same_identity _ _ _ _ Hab).
    destruct (matches uid jid b); eauto.
Qed.

(** The first matching row is rewritten where it stands. *)
Lemma update_first_split uid jid st at_ apps a :
  filter_by_first uid jid apps = Some a →
  ∃ l1 l2, apps = l1 ++ a :: l2
    ∧ filter_by_all uid jid l1 = []
    ∧ update_first uid jid st at_ apps
      = l1 ++ mk_Application (app_id a) uid jid st at_ :: l2.
Proof.
  induction apps as [|b rest IH]; simpl; [done|].
  destruct (matches uid jid b) eqn:Hm.
  - intros [= ->]. exists [], rest. repeat split; simpl.
    unfold matches in Hm. apply andb_prop in Hm as [H1 H2].
    apply bool_decide_eq_true in H1, H2. by rewrite H1, H2.
  - intros H. destruct (IH H) as (l1 & l2 & -> & Hl1 & ->).
    exists (b :: l1), l2. repeat split. simpl. by rewrite Hm.
Qed.

Lemma filter_by_first_app_None uid jid l1 l2 :
  filter_by_all uid jid l1 = [] →
  filter_by_first uid jid (l1 ++ l2) = filter_by_first uid jid l2.
Proof.
  induction l1 as [|a l1 IH]; simpl; [done|].
  destruct (matches uid jid a); [done | exact IH].
Qed.

Lemma filter_by_first_add uid jid st at_ apps :
  filter_by_first uid jid apps = None →
  filter_by_first uid jid (add_application uid jid st at_ apps)
  = Some (mk_Application (next_id apps) uid jid st at_).
Proof.
  intros H. unfold add_application.
  rewrite filter_by_first_app_None by by apply filter_by_first_None.
  simpl. unfold matches. simpl. by rewrite !bool_decide_eq_true_2.
Qed.

(** ** [execute_application] *)

(** What [execute_application] does in each of its three cases. *)
Lemma execute_application_cases now ok uid jid st :
  let r := execute_application now ok uid jid st in
  match users st !! uid, jobs st !! jid with
  | Some user, Some job =>
      selenium_calls r.2 = (apply_link job, resume_path user) :: selenium_calls st
      ∧ users r.2 = users st ∧ jobs r.2 = jobs st
      ∧ scheduler_jobs r.2 = scheduler_jobs st
      ∧ if ok
        then r.1 = Returned tt
             ∧ applications r.2
               = match filter_by_first uid jid (applications st) with
                 | Some _ => update_first uid jid Applied (Some now) (applications st)
                 | None => add_application uid jid Applied (Some now) (applications st)
                 end
             ∧ commits r.2 = applications r.2 :: commits st
        else r.1 = Raised WebDriverException
             ∧ applications r.2 = applications st
             ∧ commits r.2 = commits st
  | _, _ => r = (Returned tt, st)
  end.
Proof.
  unfold execute_application.
  destruct (users st !! uid) as [user|]; [|done].
  destruct (jobs st !! jid) as [job|]; [|done].
  destruct ok; simpl; done.
Qed.

Lemma execute_application_frame now ok uid jid st :
  let r := execute_application now ok uid jid st in
  users r.2 = users st ∧ jobs r.2 = jobs st ∧ scheduler_jobs r.2 = scheduler_jobs st.
Proof.
  intros r. pose proof (execute_application_cases now ok uid jid st) as H.
  fold r in H. simpl in H.
  destruct (users st !! uid); [destruct (jobs st !! jid)|]; try by rewrite H.
  by destruct H as (_ & ? & ? & ? & _).
Qed.

Lemma execute_application_rows now ok uid jid st :
  let r := execute_application now ok uid jid st in
  Forall2 same_identity (applications st) (applications r.2)
  ∨ (filter_by_first uid jid (applications st) = None
     ∧ is_Some (users st !! uid) ∧ is_Some (jobs st !! jid)
     ∧ applications r.2 = add_application uid jid Applied (Some now) (applications st)).
Proof.
  intros r. pose proof (execute_application_cases now ok uid jid st) as H.
  fold r in H. simpl in H.
  destruct (users st !! uid); [destruct (jobs st !! jid)|];
    try (rewrite H; left; apply Forall2_same_identity_refl).
  destruct H as (_ & _ & _ & _ & H). destruct ok.
  - destruct H as (_ & -> & _).
    destruct (filter_by_first uid jid (applications st)).
    + left. apply update_first_same_identity.
    + right. eauto.
  - destruct H as (_ & -> & _). left. apply Forall2_same_identity_refl.
Qed.

Lemma execute_application_extends now ok uid jid st :
  extends (applications st) (applications (execute_application now ok uid jid st).2).
Proof.
  destruct (execute_application_rows now ok uid jid st) as [H|(_ & _ & _ & ->)].
  - eexists _, []. by rewrite app_nil_r.
  - apply extends_add_application.
Qed.


(** C2, as the program has it. Let the row for [(uid, jid)] have status
    [Applied] or [Failed]. [execute_application] leaves the users, the
    jobs, the scheduler and every other row as they are. When both ids
    resolve and the browser step returns, the row is rewritten where it
    stands with status [Applied] and [applied_at = now], whatever it held
    before; in every other case the table is unchanged. The status after
    the call is never [Pending]. *)
Theorem execute_application_terminal now ok uid jid (st : state) a :
  filter_by_first uid jid (applications st) = Some a →
  status a = Applied ∨ status a = Failed →
  let r := execute_application now ok uid jid st in
  users r.2 = users st ∧ jobs r.2 = jobs st
  ∧ scheduler_jobs r.2 = scheduler_jobs st
  ∧ (if bool_decide (is_Some (users st !! uid)) && bool_decide (is_Some (jobs st !! jid)) && ok
     then ∃ l1 l2, applications st = l1 ++ a :: l2
            ∧ filter_by_all uid jid l1 = []
            ∧ applications r.2
              = l1 ++ mk_Application (app_id a) uid jid Applied (Some now) :: l2
     else applications r.2 = applications st)
  ∧ ∃ a', filter_by_first uid jid (applications r.2) = Some a'
          ∧ app_id a' = app_id a ∧ status a' ≠ Pending.
Proof.
  intros Hf Hst r.
  destruct (execute_application_frame now ok uid jid st) as (Hu & Hj & Hs).
  fold r in Hu, Hj, Hs. do 3 (split; [done|]).
  pose proof (execute_application_cases now ok uid jid st) as H.
  fold r in H. simpl in H.
  assert (status a ≠ Pending) as Hnp by (destruct Hst as [-> | ->]; done).
  destruct (users st !! uid) as [user|]; simpl;
    [destruct (jobs st !! jid) as [job|]; simpl|];
    try (rewrite H; simpl; split; [done|]; by exists a).
  destruct H as (_ & _ & _ & _ & H). destruct ok.
  - destruct H as (_ & Happs & _). rewrite Hf in Happs.
    destruct (update_first_split uid jid Applied (Some now) _ a Hf)
      as (l1 & l2 & Hold & Hl1 & Hnew).
    rewrite Hnew in Happs. split; [by exists l1, l2|].
    eexists. rewrite Happs, filter_by_first_app_None by done. simpl.
    unfold matches. simpl. rewrite !bool_decide_eq_true_2 by done. done.
  - destruct H as (_ & -> & _). split; [done | by exists a].
Qed.

(** C3, as the program has it. On a [Pending] row with resolvable ids the
    browser driver is called once with the job's link and the user's
    resume. When it returns, the row's status becomes [Applied] with
    [applied_at = now] and the change is committed. When it raises, the
    exception leaves [execute_application], the table is untouched (the
    row stays [Pending], with the [applied_at] it had) and nothing is
    committed. *)
Theorem execute_application_pending now ok uid jid (st : state) user job a :
  users st !! uid = Some user →
  jobs st !! jid = Some job →
  filter_by_first uid jid (applications st) = Some a →
  status a = Pending →
  let r := execute_application now ok uid jid st in
  selenium_calls r.2 = (apply_link job, resume_path user) :: selenium_calls st
  ∧ if ok
    then r.1 = Returned tt
         ∧ filter_by_first uid jid (applications r.2)
           = Some (mk_Application (app_id a) uid jid Applied (Some now))
         ∧ commits r.2 = applications r.2 :: commits st
    else r.1 = Raised WebDriverException
         ∧ applications r.2 = applications st
         ∧ filter_by_first uid jid (applications r.2) = Some a
         ∧ commits r.2 = commits st.
Proof.
  intros Hu Hj Hf Hst r.
  pose proof (execute_application_cases now ok uid jid st) as H.
  fold r in H. simpl in H. rewrite Hu, Hj in H.
  destruct H as (Hc & _ & _ & _ & H). split; [done|].
  destruct ok.
  - destruct H as (Hr & Happs & Hcm). rewrite Hf in Happs.
    destruct (update_first_split uid jid Applied (Some now) _ a Hf)
      as (l1 & l2 & Hold & Hl1 & Hnew).
    rewrite Hnew in Happs. repeat split; [done| |done].
    rewrite Happs, filter_by_first_app_None by done. simpl.
    unfold matches. simpl. by rewrite !bool_decide_eq_true_2.
  - destruct H as (Hr & Happs & Hcm). rewrite Happs. done.
Qed.

(** ** Scheduler *)

(** The job id determines the pair: two pairs never share an id, so a
    registration takes the place of a job of its own pair only. *)
Lemma has_underscore_pretty_N_go x s :
  has_underscore (pretty_N_go x s) = has_underscore s.
Proof.
  revert s. induction (N.lt_wf_0 x) as [x _ IH]; intros s.
  assert (x = 0 ∨ 0 < x)%N as [->|Hx] by lia; [by rewrite pretty_N_go_0|].
  rewrite pretty_N_go_step by done.
  rewrite IH by (apply N.div_lt; lia). simpl.
  unfold pretty_N_char. by repeat case_match.
Qed.

Lemma has_underscore_pretty_Z (z : Z) : has_underscore (pretty z) = false.
Proof.
  assert (∀ p : positive, has_underscore (pretty p) = false) as Hpos.
  { intros p. unfold pretty, pretty_positive, pretty, pretty_N.
    rewrite decide_False by done. apply has_underscore_pretty_N_go. }
  destruct z as [|p|p]; unfold pretty, pretty_Z; [done|apply Hpos|].
  simpl. apply Hpos.
Qed.

Lemma underscore_split a a' b b' :
  has_underscore a = false → has_underscore a' = false →
  a +:+ "_" +:+ b = a' +:+ "_" +:+ b' → a = a' ∧ b = b'.
Proof.
  revert a'. induction a as [|c a IH]; intros [|c' a'] H H' Heq; cbn in H, H'.
  - change (String "_" b = String "_" b') in Heq. by injection Heq as ->.
  - change (String "_" b = String c' (a' +:+ "_" +:+ b')) in Heq.
    injection Heq as <- _. by rewrite Ascii.eqb_refl in H'.
  - change (String c (a +:+ "_" +:+ b) = String "_" b') in Heq.
    injection Heq as -> _. by rewrite Ascii.eqb_refl in H.
  - change (String c (a +:+ "_" +:+ b) = String c' (a' +:+ "_" +:+ b')) in Heq.
    injection Heq as -> Heq. destruct (Ascii.eqb c' "_"); [done|].
    destruct (IH a' H H' Heq) as [-> ->]. done.
Qed.

Lemma job_id_str_inj uid jid uid' jid' :
  job_id_str uid jid = job_id_str uid' jid' → uid = uid' ∧ jid = jid'.
Proof.
  unfold job_id_str. intros H. apply (inj (String.append "apply_")) in H.
  apply underscore_split in H as [Hu Hj]; try apply has_underscore_pretty_Z.
  split; by apply (inj pretty).
Qed.


Lemma schedule_application_twice uid jid t1 t2 st :
  schedule_application uid jid t2 (schedule_application uid jid t1 st)
  = schedule_application uid jid t2 st.
Proof. unfold schedule_application, add_job. simpl. by rewrite insert_insert_eq. Qed.

Lemma schedule_application_other_pair uid jid uid' jid' t st :
  (uid', jid') ≠ (uid, jid) →
  scheduler_jobs (schedule_application uid' jid' t st) !! job_id_str uid jid
  = scheduler_jobs st !! job_id_str uid jid.
Proof.
  intros Hne. simpl. unfold add_job. apply lookup_insert_ne.
  intros H. apply job_id_str_inj in H as [-> ->]. done.
Qed.

Lemma filter_none {A} (P : A → Prop) `{∀ x, Decision (P x)} (l : list A) :
  (∀ x, x ∈ l → ¬ P x) → filter P l = [].
Proof.
  intros Hl. destruct (filter P l) as [|x rest] eqn:Hf; [done|].
  assert (x ∈ filter P l) as Hx by (rewrite Hf; left).
  apply list_elem_of_filter in Hx as [HP Hin]. by destruct (Hl x Hin).
Qed.



Lemma stored_run_dates_schedule uid jid t st :
  well_keyed (scheduler_jobs st) →
  stored_run_dates uid jid (scheduler_jobs (schedule_application uid jid t st)) = [t].
Proof.
  intros Hwk. simpl. unfold add_job, stored_run_dates.
  set (k := job_id_str uid jid). set (J := mk_scheduled_job t (uid, jid)).
  apply Permutation_singleton_r.
  rewrite <-insert_delete_eq.
  rewrite map_to_list_insert by apply lookup_delete_eq.
  rewrite fmap_cons, filter_cons. simpl.
  rewrite decide_True by done. simpl.
  rewrite filter_none; [done|].
  intros j Hj Hargs.
  apply list_elem_of_fmap in Hj as ([k' j'] & -> & Hin). simpl in Hargs.
  apply elem_of_map_to_list in Hin.
  apply lookup_delete_Some in Hin as [Hne Hin].
  apply Hwk in Hin. rewrite Hargs in Hin. simpl in Hin. by subst k.
Qed.

(** ** [apply_job_route] *)

Section RouteCases.

Variable strptime : string → option datetime.

(** The handler on a request it accepts: ids that resolve and no row for
    the pair. *)
Lemma apply_job_route_accepted now ok data st uid jid user job :
  req_user_id data = Some uid → users st !! uid = Some user →
  req_job_id data = Some jid → jobs st !! jid = Some job →
  filter_by_first uid jid (applications st) = None →
  apply_job_route strptime now ok data st
  = let st1 := pending_committed uid jid st in
    match req_schedule_time data with
    | Absent | Text "" | NonText false =>
        match execute_application now ok uid jid st1 with
        | (Raised e, st2) => (Raised e, st2)
        | (Returned _, st2) =>
            (Returned (mk_response 200 (message "Applied immediately")), st2)
        end
    | NonText true => (Raised TypeError, st1)
    | Text s =>
        match strptime s with
        | Some dt =>
            (Returned (mk_response 200 (message ("Scheduled at " +:+ s))),
             schedule_application uid jid dt st1)
        | None => (Returned InvalidSchedule, st1)
        end
    end.
Proof.
  intros Hu Hus Hj Hjs Hf. unfold apply_job_route.
  rewrite (query_get_Some (users st) _ uid user), (query_get_Some (jobs st) _ jid job)
    by done.
  by rewrite Hf.
Qed.

Lemma apply_job_route_frame now ok data st :
  let r := apply_job_route strptime now ok data st in
  users r.2 = users st ∧ jobs r.2 = jobs st.
Proof.
  route_lookups st data uid user jid job Hu' Hus Hj' Hjs; [|done..].
  destruct (filter_by_first uid jid (applications st)); [done|].
  set (st1 := commit _).
  pose proof (execute_application_frame now ok uid jid st1) as (Hu & Hj & _).
  destruct (execute_application now ok uid jid st1) as [[?|?] st2].
  all: destruct (req_schedule_time data) as [|s|[]]; try done.
  all: destruct s as [|c s]; [done|]; by destruct (strptime _).
Qed.

(** The rows of the table across one call of the handler: either every
    row is kept and none is added, or one [Pending] row is added for a pair
    that had none, committed as such, and kept from then on. *)
Lemma apply_job_route_rows now ok data st :
  let r := apply_job_route strptime now ok data st in
  (Forall2 same_identity (applications st) (applications r.2)
   ∧ commits r.2 = commits st)
  ∨ ∃ uid jid,
      req_user_id data = Some uid ∧ req_job_id data = Some jid
      ∧ is_Some (users st !! uid) ∧ is_Some (jobs st !! jid)
      ∧ filter_by_first uid jid (applications st) = None
      ∧ (∃ later, commits r.2
           = later ++ add_application uid jid Pending None (applications st) :: commits st)
      ∧ Forall2 same_identity
          (add_application uid jid Pending None (applications st)) (applications r.2).
Proof.
  intros r. subst r.
  route_lookups st data uid user jid job Hu Hus Hj Hjs;
    [|left; split; [apply Forall2_same_identity_refl | done]..].
  destruct (filter_by_first uid jid (applications st)) eqn:Hf;
    [left; split; [apply Forall2_same_identity_refl | done]|].
  right. exists uid, jid. do 5 (split; [by eauto|]).
  fold (pending_committed uid jid st). set (st1 := pending_committed uid jid st).
  assert (applications st1 = add_application uid jid Pending None (applications st))
    as Happs by done.
  assert (commits st1 = applications st1 :: commits st) as Hcm by done.
  assert (let r := match execute_application now ok uid jid st1 with
                   | (Raised e, st2) => (Raised e, st2)
                   | (Returned _, st2) =>
                       (Returned (mk_response 200 (message "Applied immediately")), st2)
                   end in
          (∃ later, commits r.2 = later ++ applications st1 :: commits st)
          ∧ Forall2 same_identity (applications st1) (applications r.2)) as Himm.
  { pose proof (execute_application_cases now ok uid jid st1) as H.
    assert (users st1 !! uid = Some user) as Hus1 by done.
    assert (jobs st1 !! jid = Some job) as Hjs1 by done.
    cbv zeta in H. rewrite Hus1, Hjs1 in H.
    destruct H as (_ & _ & _ & _ & H).
    destruct (execute_application now ok uid jid st1) as [res st2].
    cbn [fst snd] in *.
    destruct ok.
    - destruct H as (-> & Ha & Hc). simpl. split.
      + exists [applications st2]. by rewrite Hc, Hcm.
      + rewrite Ha, Happs, filter_by_first_add by done.
        rewrite <-Happs. apply update_first_same_identity.
    - destruct H as (-> & Ha & Hc). simpl. split.
      + exists []. by rewrite Hc, Hcm.
      + rewrite Ha. apply Forall2_same_identity_refl. }
  rewrite <-Happs.
  assert ((∃ later, commits st1 = later ++ applications st1 :: commits st)
          ∧ Forall2 same_identity (applications st1) (applications st1)) as Hst1.
  { split; [by exists [] | apply Forall2_same_identity_refl]. }
  destruct (req_schedule_time data) as [|s|[]]; try done.
  destruct s as [|c s]; [done|]. by destruct (strptime _).
Qed.

Lemma apply_job_route_extends now ok data st :
  extends (applications st) (applications (apply_job_route strptime now ok data st).2).
Proof.
  destruct (apply_job_route_rows now ok data st)
    as [[H _]|(uid & jid & _ & _ & _ & _ & _ & _ & H)].
  - eexists _, []. by rewrite app_nil_r.
  - eapply extends_trans; [apply extends_add_application|].
    eexists _, []. by rewrite app_nil_r.
Qed.

Lemma run_ops_extends os st :
  extends (applications st) (applications (run_ops strptime os st)).
Proof.
  revert st. induction os as [|o os IH]; intros st; simpl; [apply extends_refl|].
  eapply extends_trans; [|apply IH].
  destruct o; simpl; [apply apply_job_route_extends | apply execute_application_extends].
Qed.

Lemma run_ops_frame os st :
  users (run_ops strptime os st) = users st ∧ jobs (run_ops strptime os st) = jobs st.
Proof.
  revert st. induction os as [|o os IH]; intros st; simpl; [done|].
  destruct (IH (run_op strptime st o)) as [-> ->].
  destruct o; simpl.
  - apply apply_job_route_frame.
  - destruct (execute_application_frame now browser_ok uid jid st) as (? & ? & _). done.
Qed.

(** The foreign keys hold after every operation when they held before. *)
Lemma fk_ok_extends st st' :
  users st' = users st → jobs st' = jobs st →
  fk_ok st →
  (Forall2 same_identity (applications st) (applications st')
   ∨ ∃ uid jid s at_, is_Some (users st !! uid) ∧ is_Some (jobs st !! jid)
       ∧ Forall2 same_identity (add_application uid jid s at_ (applications st))
                               (applications st')) →
  fk_ok st'.
Proof.
  intros Hu Hj Hfk H. unfold fk_ok in *. rewrite Hu, Hj.
  assert (∀ l l', Forall2 same_identity l l' →
    Forall (λ a, is_Some (users st !! user_id a) ∧ is_Some (jobs st !! job_id a)) l →
    Forall (λ a, is_Some (users st !! user_id a) ∧ is_Some (jobs st !! job_id a)) l')
    as Hmove.
  { intros l l' H2. induction H2 as [|a b l l' (_ & Hua & Hja) _ IH]; [done|].
    intros Hl. apply Forall_cons in Hl as [Ha Hl].
    constructor; [by rewrite <-Hua, <-Hja | by apply IH]. }
  destruct H as [H|(uid & jid & s & at_ & Hus & Hjs & H)]; [by eapply Hmove|].
  eapply Hmove; [exact H|]. unfold add_application.
  apply Forall_app. split; [done|]. by repeat constructor.
Qed.

Lemma run_op_fk_ok st o : fk_ok st → fk_ok (run_op strptime st o).
Proof.
  intros Hfk. destruct o; simpl.
  - destruct (apply_job_route_frame now browser_ok data st) as [Hu Hj].
    apply (fk_ok_extends st); [done..|].
    destruct (apply_job_route_rows now browser_ok data st)
      as [[H _]|(uid & jid & _ & _ & Hus & Hjs & _ & _ & H)]; [by left|].
    right. by exists uid, jid, Pending, None.
  - destruct (execute_application_frame now browser_ok uid jid st) as (Hu & Hj & _).
    apply (fk_ok_extends st); [done..|].
    destruct (execute_application_rows now browser_ok uid jid st)
      as [H|(_ & Hus & Hjs & H)]; [by left|].
    right. exists uid, jid, Applied, (Some now). rewrite H.
    split; [done|]. split; [done|]. apply Forall2_same_identity_refl.
Qed.

Lemma run_ops_fk_ok os st : fk_ok st → fk_ok (run_ops strptime os st).
Proof.
  revert st. induction os as [|o os IH]; intros st H; simpl; [done|].
  apply IH. by apply run_op_fk_ok.
Qed.

(** The handler leaves the state as it was, or the state with the
    [Pending] row committed, then possibly one registration with the
    scheduler or one run of [execute_application]. *)
Lemma apply_job_route_state now ok data st :
  let st' := (apply_job_route strptime now ok data st).2 in
  st' = st
  ∨ ∃ uid jid,
      req_user_id data = Some uid ∧ req_job_id data = Some jid
      ∧ is_Some (users st !! uid) ∧ is_Some (jobs st !! jid)
      ∧ filter_by_first uid jid (applications st) = None
      ∧ (st' = pending_committed uid jid st
         ∨ (∃ dt, st' = schedule_application uid jid dt (pending_committed uid jid st))
         ∨ st' = (execute_application now ok uid jid (pending_committed uid jid st)).2).
Proof.
  route_lookups st data uid user jid job Hu Hus Hj Hjs; [|by left..].
  destruct (filter_by_first uid jid (applications st)) eqn:Hf; [by left|].
  right. exists uid, jid. do 5 (split; [by eauto|]).
  fold (pending_committed uid jid st).
  assert ((match execute_application now ok uid jid (pending_committed uid jid st) with
           | (Raised e, st2) => (Raised e, st2)
           | (Returned _, st2) =>
               (Returned (mk_response 200 (message "Applied immediately")), st2)
           end).2
          = (execute_application now ok uid jid (pending_committed uid jid st)).2)
    as Himm by by destruct (execute_application _ _ _ _ _) as [[?|?] ?].
  destruct (req_schedule_time data) as [|s|[]]; cbv zeta;
    [right; right; exact Himm| |by left|right; right; exact Himm].
  destruct s as [|c s]; [right; right; exact Himm|].
  destruct (strptime _) as [dt|]; [|by left].
  right; left. by exists dt.
Qed.

(** A request for a pair that has a row is answered [DuplicateApplication]
    and changes nothing, when the ids resolve. *)
Lemma apply_job_route_existing now ok data st uid jid :
  req_user_id data = Some uid → req_job_id data = Some jid →
  is_Some (users st !! uid) → is_Some (jobs st !! jid) →
  is_Some (filter_by_first uid jid (applications st)) →
  apply_job_route strptime now ok data st = (Returned DuplicateApplication, st).
Proof.
  intros Hu Hj [user Hus] [job Hjs] [a Ha]. unfold apply_job_route.
  rewrite (query_get_Some (users st) _ uid user), (query_get_Some (jobs st) _ jid job)
    by done.
  by rewrite Ha.
Qed.

(** C4. In a table that respects its foreign keys, a request for a pair
    [(uid, jid)] that already has a row, of any status, is answered with
    [DuplicateApplication] and the state is the one before the call: no
    row is created, nothing is scheduled, the browser driver is not
    called and nothing is committed. *)
Theorem apply_job_route_duplicate now ok data (st : state) uid jid a :
  fk_ok st →
  req_user_id data = Some uid → req_job_id data = Some jid →
  a ∈ applications st → user_id a = uid → job_id a = jid →
  apply_job_route strptime now ok data st = (Returned DuplicateApplication, st).
Proof.
  intros Hfk Hu Hj Hin Hua Hja.
  unfold fk_ok in Hfk. rewrite Forall_forall in Hfk.
  destruct (Hfk a Hin) as [Hus Hjs]. rewrite Hua in Hus. rewrite Hja in Hjs.
  apply (apply_job_route_existing now ok data st uid jid); try done.
  by apply (filter_by_first_is_Some uid jid _ a).
Qed.


End RouteCases.

Section RouteClaims.

Variable strptime : string → option datetime.






(** C8, as the program has it. On a request with resolvable ids, no row
    for the pair and a non-empty string as schedule time, the handler
    answers [InvalidSchedule] exactly when the string does not parse under
    ['%Y-%m-%d %H:%M:%S']; whether the parsed instant lies before or after
    the current time plays no part. When the string parses, the answer is
    the acknowledgement that carries the string as it was sent, and the job
    is registered at the parsed instant. *)
Theorem apply_job_route_schedule now ok data (st : state) uid jid user job s :
  req_user_id data = Some uid → users st !! uid = Some user →
  req_job_id data = Some jid → jobs st !! jid = Some job →
  filter_by_first uid jid (applications st) = None →
  req_schedule_time data = Text s → s ≠ "" →
  let r := apply_job_route strptime now ok data st in
  (r.1 = Returned InvalidSchedule ↔ strptime s = None)
  ∧ (∀ dt, strptime s = Some dt →
       r.1 = Returned (mk_response 200 (message ("Scheduled at " +:+ s)))
       ∧ scheduler_jobs r.2 !! job_id_str uid jid = Some (mk_scheduled_job dt (uid, jid))).
Proof.
  intros Hu Hus Hj Hjs Hf Hs Hne r. subst r.
  rewrite (apply_job_route_accepted strptime now ok data st uid jid user job)
    by done.
  rewrite Hs. destruct s as [|c s]; [done|]. cbv zeta.
  destruct (strptime _) as [dt|]; simpl.
  - split; [split; discriminate|]. intros dt' [= <-].
    split; [done|]. unfold add_job. apply lookup_insert_eq.
  - split; [done|]. intros dt' [=].
Qed.

(** C9. On a request with resolvable ids and no row for the pair whose
    schedule time does not parse (a non-empty string that [strptime]
    rejects, or a true value that is not a string), the handler ends in an
    error: the answer [InvalidSchedule], or [TypeError] for a value that
    is not a string. The [Pending] row added before the parse is in the
    table and committed, and nothing is scheduled. From then on, after
    any further operations, every request for the same pair is answered
    [DuplicateApplication] and changes nothing. *)
Theorem unparsed_schedule_leaves_pending now ok data (st : state) uid jid user job :
  req_user_id data = Some uid → users st !! uid = Some user →
  req_job_id data = Some jid → jobs st !! jid = Some job →
  filter_by_first uid jid (applications st) = None →
  (req_schedule_time data = NonText true
   ∨ ∃ s, req_schedule_time data = Text s ∧ s ≠ "" ∧ strptime s = None) →
  let r := apply_job_route strptime now ok data st in
  r.1 = match req_schedule_time data with
        | Text _ => Returned InvalidSchedule
        | _ => Raised TypeError
        end
  ∧ applications r.2
    = applications st ++ [mk_Application (next_id (applications st)) uid jid Pending None]
  ∧ filter_by_first uid jid (applications r.2)
    = Some (mk_Application (next_id (applications st)) uid jid Pending None)
  ∧ commits r.2 = applications r.2 :: commits st
  ∧ scheduler_jobs r.2 = scheduler_jobs st
  ∧ ∀ os now' ok' data',
      req_user_id data' = Some uid → req_job_id data' = Some jid →
      let st' := run_ops strptime os r.2 in
      apply_job_route strptime now' ok' data' st' = (Returned DuplicateApplication, st').
Proof.
  intros Hu Hus Hj Hjs Hf Hs r.
  assert (r = (match req_schedule_time data with
               | Text _ => Returned InvalidSchedule
               | _ => Raised TypeError
               end, pending_committed uid jid st)) as Hr.
  { subst r.
    rewrite (apply_job_route_accepted strptime now ok data st uid jid user job)
      by done.
    destruct Hs as [-> | (s & -> & Hne & Hp)]; [done|].
    destruct s as [|c s]; [done|]. by rewrite Hp. }
  rewrite Hr. cbn [fst snd].
  assert (filter_by_first uid jid (applications (pending_committed uid jid st))
          = Some (mk_Application (next_id (applications st)) uid jid Pending None))
    as Hrow by by apply filter_by_first_add.
  do 5 (split; [done|]).
  intros os now' ok' data' Hu' Hj'.
  destruct (run_ops_frame strptime os (pending_committed uid jid st)) as [Hus' Hjs'].
  set (st' := run_ops strptime os (pending_committed uid jid st)) in *.
  apply (apply_job_route_existing strptime now' ok' data' st' uid jid); try done.
  - rewrite Hus'. simpl. by rewrite Hus.
  - rewrite Hjs'. simpl. by rewrite Hjs.
  - eapply filter_by_first_extends; [apply run_ops_extends|]. by rewrite Hrow.
Qed.

End RouteClaims.

(** * The statements on concrete requests *)

Example strptime_padded_ok :
  strptime_padded "2030-02-28 09:30:00" = Some (mk_datetime 2030 2 28 9 30 0 0).
Proof. reflexivity. Qed.

Example strptime_padded_bad_day : strptime_padded "2030-02-30 09:30:00" = None.
Proof. reflexivity. Qed.

Example strptime_padded_bad_text : strptime_padded "tomorrow" = None.
Proof. reflexivity. Qed.

(** The immediate path: the row is added [Pending], committed, then set to
    [Applied] and committed again. *)
Example apply_now_run :
  let r := apply_job_route strptime_padded t2026 true apply_now store0 in
  r.1 = Returned (mk_response 200 (message "Applied immediately"))
  ∧ applications r.2 = [mk_Application 1 1 1 Applied (Some t2026)]
  ∧ commits r.2 = [[mk_Application 1 1 1 Applied (Some t2026)];
                   [mk_Application 1 1 1 Pending None]]
  ∧ selenium_calls r.2 = [(Some "https://example.com/apply/123", Some "uploads/cv.pdf")].
Proof. vm_compute. done. Qed.

(** The immediate path when the browser step raises: the exception leaves
    the handler and the [Pending] row stays. *)
Example apply_now_browser_fails :
  let r := apply_job_route strptime_padded t2026 false apply_now store0 in
  r.1 = Raised WebDriverException
  ∧ applications r.2 = [mk_Application 1 1 1 Pending None].
Proof. vm_compute. done. Qed.

Example some_ops_run :
  let st := run_ops strptime_padded some_ops store0 in
  applications st = [mk_Application 1 1 1 Applied (Some t2027)]
  ∧ stored_run_dates 1 1 (scheduler_jobs st) = [t2027]
  ∧ length (commits st) = 3%nat.
Proof. vm_compute. done. Qed.

Lemma at_most_one_record_per_pair_witness :
  at_most_one (applications store0)
  ∧ Forall at_most_one (commits store0)
  ∧ (length (filter_by_all 1 1 (applications (run_ops strptime_padded some_ops store0))) ≤ 1)%nat
  ∧ Forall (λ snapshot, (length (filter_by_all 1 1 snapshot) ≤ 1)%nat)
           (commits (run_ops strptime_padded some_ops store0)).
Proof.
  assert (at_most_one (applications store0)) as H1 by (intros u j; simpl; lia).
  assert (Forall at_most_one (commits store0)) as H2 by constructor.
  split; [exact H1|]. split; [exact H2|].
  exact (at_most_one_record_per_pair strptime_padded store0 some_ops 1 1 H1 H2).
Defined.

(** C2 fails as stated: [execute_application] on a row that is already
    [Applied] gives it a new [applied_at], and on a row that is [Failed]
    it sets the status to [Applied]. *)
Lemma execute_application_terminal_counterexample :
  (let st := store_with Applied (Some t2026) in
   let r := execute_application t2027 true 1 1 st in
   applications st = [mk_Application 1 1 1 Applied (Some t2026)]
   ∧ applications r.2 = [mk_Application 1 1 1 Applied (Some t2027)]
   ∧ applications r.2 ≠ applications st)
  ∧ (let st := store_with Failed (Some t2026) in
     let r := execute_application t2027 true 1 1 st in
     applications st = [mk_Application 1 1 1 Failed (Some t2026)]
     ∧ applications r.2 = [mk_Application 1 1 1 Applied (Some t2027)]
     ∧ applications r.2 ≠ applications st).
Proof. vm_compute. repeat split; discriminate. Qed.

Lemma execute_application_terminal_witness :
  let st := store_with Failed (Some t2026) in
  let a := mk_Application 1 1 1 Failed (Some t2026) in
  let r := execute_application t2027 true 1 1 st in
  filter_by_first 1 1 (applications st) = Some a
  ∧ (status a = Applied ∨ status a = Failed)
  ∧ users r.2 = users st ∧ jobs r.2 = jobs st
  ∧ scheduler_jobs r.2 = scheduler_jobs st
  ∧ (if bool_decide (is_Some (users st !! 1)) && bool_decide (is_Some (jobs st !! 1)) && true
     then ∃ l1 l2, applications st = l1 ++ a :: l2
            ∧ filter_by_all 1 1 l1 = []
            ∧ applications r.2
              = l1 ++ mk_Application (app_id a) 1 1 Applied (Some t2027) :: l2
     else applications r.2 = applications st)
  ∧ ∃ a', filter_by_first 1 1 (applications r.2) = Some a'
          ∧ app_id a' = app_id a ∧ status a' ≠ Pending.
Proof.
  intros st a r.
  assert (filter_by_first 1 1 (applications st) = Some a) as H1 by reflexivity.
  assert (status a = Applied ∨ status a = Failed) as H2 by (right; reflexivity).
  split; [exact H1|]. split; [exact H2|].
  exact (execute_application_terminal t2027 true 1 1 st a H1 H2).
Defined.

(** C3 fails as stated: when the browser step raises, the exception leaves
    [execute_application] and the row stays [Pending] with no
    [applied_at]; it does not become [Failed]. *)
Lemma execute_application_pending_counterexample :
  let st := store_with Pending None in
  let r := execute_application t2026 false 1 1 st in
  is_Some (users st !! 1) ∧ is_Some (jobs st !! 1)
  ∧ applications st = [mk_Application 1 1 1 Pending None]
  ∧ r.1 = Raised WebDriverException
  ∧ applications r.2 = [mk_Application 1 1 1 Pending None]
  ∧ status <$> filter_by_first 1 1 (applications r.2) ≠ Some Failed
  ∧ filter_by_first 1 1 (applications r.2) ≫= applied_at ≠ Some t2026.
Proof. vm_compute. repeat split; by eauto. Qed.

Lemma execute_application_pending_witness :
  let st := store_with Pending None in
  let a := mk_Application 1 1 1 Pending None in
  let r := execute_application t2026 false 1 1 st in
  users st !! 1 = Some alice
  ∧ jobs st !! 1 = Some job_ds
  ∧ filter_by_first 1 1 (applications st) = Some a
  ∧ status a = Pending
  ∧ selenium_calls r.2 = (apply_link job_ds, resume_path alice) :: selenium_calls st
  ∧ r.1 = Raised WebDriverException
  ∧ applications r.2 = applications st
  ∧ filter_by_first 1 1 (applications r.2) = Some a
  ∧ commits r.2 = commits st.
Proof.
  intros st a r.
  assert (users st !! 1 = Some alice) as H1 by reflexivity.
  assert (jobs st !! 1 = Some job_ds) as H2 by reflexivity.
  assert (filter_by_first 1 1 (applications st) = Some a) as H3 by reflexivity.
  assert (status a = Pending) as H4 by reflexivity.
  do 4 (split; [assumption|]).
  exact (execute_application_pending t2026 false 1 1 st alice job_ds a H1 H2 H3 H4).
Defined.

Lemma apply_job_route_duplicate_witness :
  let st := store_with Pending None in
  let a := mk_Application 1 1 1 Pending None in
  fk_ok st
  ∧ a ∈ applications st
  ∧ apply_job_route strptime_padded t2026 true apply_now st
    = (Returned DuplicateApplication, st).
Proof.
  intros st a.
  assert (fk_ok st) as H1 by (repeat constructor; eexists; reflexivity).
  assert (a ∈ applications st) as H2 by left.
  split; [exact H1|]. split; [exact H2|].
  exact (apply_job_route_duplicate strptime_padded t2026 true apply_now st 1 1 a
           H1 eq_refl eq_refl H2 eq_refl eq_refl).
Defined.



Example job_id_str_1_23 : job_id_str 1 23 = "apply_1_23".
Proof. reflexivity. Qed.




Example apply_job_route_unknown_ids :
  apply_job_route strptime_padded t2026 true
    (mk_apply_request (Some 7) (Some 1) Absent) store0 = (Returned NotFound, store0)
  ∧ apply_job_route strptime_padded t2026 true
      (mk_apply_request None (Some 1) Absent) store0 = (Returned NotFound, store0)
  ∧ apply_job_route strptime_padded t2026 true
      (mk_apply_request (Some 7) (Some (- 2 ^ 63 - 1)) Absent) store0
    = (Raised OverflowError, store0).
Proof. vm_compute. done. Qed.

(** C8 fails as stated: a schedule time that parses to an instant before
    the current time is not a valid future instant, and the handler
    accepts it and registers the job. *)
Lemma apply_job_route_schedule_counterexample :
  let s := "2000-01-01 00:00:00" in
  let r := apply_job_route strptime_padded t2026 true (apply_at s) store0 in
  strptime_padded s = Some (mk_datetime 2000 1 1 0 0 0 0)
  ∧ dt_ltb t2026 (mk_datetime 2000 1 1 0 0 0 0) = false
  ∧ ¬ valid_future strptime_padded t2026 s
  ∧ r.1 = Returned (mk_response 200 (message "Scheduled at 2000-01-01 00:00:00"))
  ∧ r.1 ≠ Returned InvalidSchedule
  ∧ scheduler_jobs r.2 !! "apply_1_1"
    = Some (mk_scheduled_job (mk_datetime 2000 1 1 0 0 0 0) (1, 1)).
Proof.
  intros s r. split; [reflexivity|]. split; [reflexivity|].
  split; [intros (dt & Hp & Hlt); vm_compute in Hp; injection Hp as <-; discriminate|].
  split; [reflexivity|]. split; [discriminate|]. reflexivity.
Qed.

Lemma apply_job_route_schedule_witness :
  let s := "2027-02-30 08:00:00" in
  let r := apply_job_route strptime_padded t2026 true (apply_at s) store0 in
  s ≠ ""
  ∧ (r.1 = Returned InvalidSchedule ↔ strptime_padded s = None)
  ∧ (∀ dt, strptime_padded s = Some dt →
       r.1 = Returned (mk_response 200 (message ("Scheduled at " +:+ s)))
       ∧ scheduler_jobs r.2 !! job_id_str 1 1 = Some (mk_scheduled_job dt (1, 1))).
Proof.
  intros s r.
  assert (s ≠ "") as H by discriminate.
  split; [exact H|].
  exact (apply_job_route_schedule strptime_padded t2026 true (apply_at s) store0
           1 1 alice job_ds s eq_refl eq_refl eq_refl eq_refl eq_refl eq_refl H).
Defined.

Lemma unparsed_schedule_leaves_pending_witness :
  let data := apply_at "tomorrow" in
  let r := apply_job_route strptime_padded t2026 true data store0 in
  (req_schedule_time data = NonText true
   ∨ ∃ s, req_schedule_time data = Text s ∧ s ≠ "" ∧ strptime_padded s = None)
  ∧ r.1 = Returned InvalidSchedule
  ∧ applications r.2 = [mk_Application 1 1 1 Pending None]
  ∧ filter_by_first 1 1 (applications r.2) = Some (mk_Application 1 1 1 Pending None)
  ∧ commits r.2 = applications r.2 :: commits store0
  ∧ scheduler_jobs r.2 = scheduler_jobs store0
  ∧ ∀ os now' ok' data',
      req_user_id data' = Some 1 → req_job_id data' = Some 1 →
      let st' := run_ops strptime_padded os r.2 in
      apply_job_route strptime_padded now' ok' data' st'
      = (Returned DuplicateApplication, st').
Proof.
  intros data r.
  assert (req_schedule_time data = NonText true
          ∨ ∃ s, req_schedule_time data = Text s ∧ s ≠ "" ∧ strptime_padded s = None)
    as H by (right; exists "tomorrow"; repeat split; discriminate).
  split; [exact H|].
  exact (unparsed_schedule_leaves_pending strptime_padded t2026 true data store0
           1 1 alice job_ds eq_refl eq_refl eq_refl eq_refl eq_refl H).
Defined.


(** * The other handlers: properties *)

(** ** Keyed tables *)

Lemma elem_of_rows {A} (m : gmap Z A) k x : (k, x) ∈ rows m ↔ m !! k = Some x.
Proof.
  unfold rows. rewrite merge_sort_Permutation. apply elem_of_map_to_list.
Qed.

Lemma max_key_bound {A} (m : gmap Z A) k x :
  m !! k = Some x → k ≤ map_fold (λ k _ acc, Z.max k acc) 0 m.
Proof.
  revert k x.
  apply (map_fold_weak_ind (λ r (m : gmap Z A), ∀ k x, m !! k = Some x → k ≤ r)).
  - intros k x H. by rewrite lookup_empty in H.
  - intros i y m' r Hi IH k x Hk.
    destruct (decide (i = k)) as [->|Hne]; [lia|].
    rewrite lookup_insert_ne in Hk by done. specialize (IH k x Hk). lia.
Qed.

(** The key of a new row is not in use. *)
Lemma next_key_fresh {A} (m : gmap Z A) : m !! next_key m = None.
Proof.
  destruct (m !! next_key m) as [x|] eqn:H; [|done].
  apply max_key_bound in H. unfold next_key in H. lia.
Qed.

Lemma next_id_bound apps a : a ∈ apps → app_id a < next_id apps.
Proof.
  unfold next_id.
  induction 1 as [a rest | a b rest _ IH]; rewrite fmap_cons; cbn [foldr]; lia.
Qed.

(** ** Lookup by email *)

Lemma filter_by_email_Some e us k u :
  filter_by_email e us = Some (k, u) → us !! k = Some u ∧ e = Some (email u).
Proof.
  destruct e as [e|]; simpl; [|done].
  destruct (list_find _ _) as [[i [k' u']]|] eqn:Hf; simpl; [|done].
  intros [= -> ->]. apply list_find_Some in Hf as (Hi & He & _).
  apply list_elem_of_lookup_2 in Hi. apply elem_of_rows in Hi.
  simpl in He. by subst e.
Qed.

Lemma filter_by_email_None e us :
  filter_by_email (Some e) us = None ↔ ∀ k u, us !! k = Some u → email u ≠ e.
Proof.
  simpl. rewrite fmap_None, list_find_None, Forall_forall. split.
  - intros H k u Hk. apply (H (k, u)). by apply elem_of_rows.
  - intros H [k u] Hk. apply elem_of_rows in Hk. by apply (H k u).
Qed.

Lemma filter_by_email_is_Some us k u :
  us !! k = Some u → is_Some (filter_by_email (Some (email u)) us).
Proof.
  intros Hk. destruct (filter_by_email (Some (email u)) us) eqn:Hf; [eauto|].
  rewrite filter_by_email_None in Hf. by destruct (Hf k u Hk).
Qed.

(** With unique emails the lookup returns the one user of that email. *)
Lemma filter_by_email_unique us k u :
  unique_emails us → us !! k = Some u →
  filter_by_email (Some (email u)) us = Some (k, u).
Proof.
  intros Huniq Hk.
  destruct (filter_by_email_is_Some us k u Hk) as [[k' u'] Hf].
  destruct (filter_by_email_Some _ _ _ _ Hf) as [Hk' [= He]].
  assert (k = k') as <- by (by eapply Huniq).
  rewrite Hk in Hk'. by injection Hk' as <-.
Qed.

(** ** [register] *)

Lemma register_cases data st :
  (register data st = (Returned credentials_required, st)
   ∧ (text_truthy (reg_email data) = false ∨ text_truthy (reg_password data) = false))
  ∨ (register data st = (Returned email_exists, st)
     ∧ ∃ e k u, reg_email data = Some e ∧ users st !! k = Some u ∧ email u = e)
  ∨ ∃ e p, reg_email data = Some e ∧ reg_password data = Some p
      ∧ e ≠ "" ∧ p ≠ ""
      ∧ (∀ k u, users st !! k = Some u → email u ≠ e)
      ∧ register data st
        = if bindable (reg_experience data)
          then (Returned registered,
                commit (set_users
                  (<[next_key (users st)
                     := mk_User e p (reg_location data) (reg_experience data) None]>
                     (users st)) st))
          else (Raised OverflowError, st).
Proof.
  unfold register.
  destruct (reg_email data) as [e|]; [|left; split; [done | by left]].
  destruct (reg_password data) as [p|]; [|left; split; [done | by right]].
  destruct (decide (e = "")) as [->|He].
  { left. split; [done | by left]. }
  destruct (decide (p = "")) as [->|Hp].
  { left. rewrite bool_decide_eq_false_2 by done. split; [done | by right]. }
  rewrite !bool_decide_eq_false_2 by done. cbn [orb].
  destruct (filter_by_email (Some e) (users st)) as [[k u]|] eqn:Hf.
  - right; left. split; [done|].
    apply filter_by_email_Some in Hf as [Hk [= ->]]. by exists (email u), k, u.
  - right; right. exists e, p. rewrite filter_by_email_None in Hf. done.
Qed.

(** The state after [register]: as before, or with one user more, whose
    email no stored user has, under a new key. *)
Lemma register_state data st :
  (register data st).2 = st
  ∨ ∃ e p, (∀ k u, users st !! k = Some u → email u ≠ e)
      ∧ (register data st).2
        = commit (set_users
            (<[next_key (users st)
               := mk_User e p (reg_location data) (reg_experience data) None]>
               (users st)) st).
Proof.
  destruct (register_cases data st)
    as [[-> _]|[[-> _]|(e & p & _ & _ & _ & _ & Hfresh & ->)]]; [by left..|].
  destruct (bindable (reg_experience data)); [|by left].
  right. by exists e, p.
Qed.

Lemma register_unique_emails data st :
  unique_emails (users st) → unique_emails (users (register data st).2).
Proof.
  intros Huniq.
  destruct (register_state data st) as [->|(e & p & Hfresh & ->)]; [done|].
  simpl. intros i j u v Hi Hj Heq.
  pose proof (next_key_fresh (users st)) as Hnk.
  destruct (decide (i = next_key (users st))) as [->|Hi'];
    destruct (decide (j = next_key (users st))) as [->|Hj']; [done|..].
  - rewrite lookup_insert_eq in Hi. rewrite lookup_insert_ne in Hj by done.
    injection Hi as <-. simpl in Heq. by destruct (Hfresh j v Hj).
  - rewrite lookup_insert_eq in Hj. rewrite lookup_insert_ne in Hi by done.
    injection Hj as <-. simpl in Heq. by destruct (Hfresh i u Hi).
  - rewrite lookup_insert_ne in Hi, Hj by done. by eapply Huniq.
Qed.

Lemma register_keeps_accounts data st k u :
  users st !! k = Some u → users (register data st).2 !! k = Some u.
Proof.
  intros Hk.
  destruct (register_state data st) as [->|(e & p & _ & ->)]; [done|].
  simpl. rewrite lookup_insert_ne; [done|].
  intros <-. by rewrite next_key_fresh in Hk.
Qed.

Lemma register_frame data st :
  jobs (register data st).2 = jobs st
  ∧ applications (register data st).2 = applications st
  ∧ scheduler_jobs (register data st).2 = scheduler_jobs st
  ∧ selenium_calls (register data st).2 = selenium_calls st
  ∧ (commits (register data st).2 = commits st
     ∨ commits (register data st).2 = applications st :: commits st).
Proof.
  destruct (register_state data st) as [->|(e & p & _ & ->)]; simpl; auto 10.
Qed.

(** ** [search_jobs_route] *)

Lemma filter_by_job_Some j js k x :
  filter_by_job j js = Some (k, x) → js !! k = Some x ∧ x = j.
Proof.
  unfold filter_by_job.
  destruct (list_find _ _) as [[i [k' x']]|] eqn:Hf; simpl; [|done].
  intros [= -> ->]. apply list_find_Some in Hf as (Hi & He & _).
  apply list_elem_of_lookup_2 in Hi. by apply elem_of_rows in Hi.
Qed.

Lemma filter_by_job_None j js :
  filter_by_job j js = None ↔ ∀ k x, js !! k = Some x → x ≠ j.
Proof.
  unfold filter_by_job. rewrite fmap_None, list_find_None, Forall_forall. split.
  - intros H k x Hk. apply (H (k, x)). by apply elem_of_rows.
  - intros H [k x] Hk. apply elem_of_rows in Hk. by apply (H k x).
Qed.

(** The two ways a search for a known user goes: the job is in the table,
    or it is stored under a new key. *)
Lemma search_jobs_route_cases uid keyword st k0 user :
  uid = Some k0 → users st !! k0 = Some user →
  let j := scraped_for user in
  (∃ k, filter_by_job j (jobs st) = Some (k, j)
     ∧ jobs st !! k = Some j
     ∧ search_jobs_route uid keyword st
       = (jsonify [("jobs", JArr [job_entry k j])] 200, st))
  ∨ (filter_by_job j (jobs st) = None
     ∧ search_jobs_route uid keyword st
       = (jsonify [("jobs", JArr [job_entry (next_key (jobs st)) j])] 200,
          commit (set_jobs (<[next_key (jobs st) := j]> (jobs st)) st))).
Proof.
  intros -> Hu j. unfold search_jobs_route. simpl. rewrite Hu.
  unfold scrape_jobs. fold (scraped_for user). fold j. simpl.
  destruct (filter_by_job j (jobs st)) as [[k x]|] eqn:Hf.
  - destruct (filter_by_job_Some _ _ _ _ Hf) as [Hk ->]. left. by exists k.
  - by right.
Qed.

Lemma search_jobs_route_unknown uid keyword st :
  uid ≫= (users st !!.) = None →
  search_jobs_route uid keyword st = (invalid_user_id, st).
Proof. intros H. unfold search_jobs_route. by rewrite H. Qed.

Lemma search_jobs_route_frame uid keyword st :
  let st' := (search_jobs_route uid keyword st).2 in
  users st' = users st ∧ applications st' = applications st
  ∧ scheduler_jobs st' = scheduler_jobs st
  ∧ selenium_calls st' = selenium_calls st
  ∧ (∀ k j, jobs st !! k = Some j → jobs st' !! k = Some j).
Proof.
  destruct (uid ≫= (users st !!.)) as [user|] eqn:Hu.
  - destruct uid as [k0|]; [|done]. simpl in Hu.
    destruct (search_jobs_route_cases (Some k0) keyword st k0 user eq_refl Hu)
      as [(k & _ & _ & ->)|(_ & ->)]; simpl; [done|].
    do 4 (split; [done|]). intros k j Hk. rewrite lookup_insert_ne; [done|].
    intros <-. by rewrite next_key_fresh in Hk.
  - by rewrite search_jobs_route_unknown.
Qed.

(** ** [upload_resume_route] *)

Section UploadLemmas.

Variable lower : string → string.
Variable extract_text : string → option string.
Variable nlp : string → spacy_doc.
Variable secure_filename : string → string.
Variable upload_folder : string.

Abbreviation upload := (upload_resume_route lower extract_text nlp secure_filename upload_folder).
Abbreviation parse := (parse_resume lower extract_text nlp).

(** The path under which an upload is stored. *)
Lemma upload_resume_route_cases uid file uuid4 st :
  (upload uid file uuid4 st).1.2 = st
  ∨ ∃ k user f parsed,
      uid = Some k ∧ users st !! k = Some user ∧ file = Some f
      ∧ filename f ≠ "" ∧ parse (content f) = Some parsed
      ∧ let path := path_join upload_folder
                      (uuid4 +:+ "_" +:+ secure_filename (filename f)) in
        upload uid file uuid4 st
        = (Completes (jsonify [("message", JStr "Uploaded");
                               ("parsed_data", parsed_json parsed)] 200),
           commit (set_users (<[k := set_resume_path path user]> (users st)) st),
           Some (path, content f)).
Proof.
  unfold upload_resume_route.
  destruct (uid ≫= _) as [[k user]|] eqn:Hu; [|by left].
  apply resolve_Some in Hu as [-> Hu].
  destruct file as [f|]; [|by left].
  destruct (decide (filename f = "")) as [Hf|Hf].
  { rewrite bool_decide_eq_true_2 by done. by left. }
  rewrite bool_decide_eq_false_2 by done.
  destruct (parse (content f)) as [parsed|] eqn:Hp; [|by left].
  right. by exists k, user, f, parsed.
Qed.

Lemma upload_resume_route_frame uid file uuid4 st :
  let st' := (upload uid file uuid4 st).1.2 in
  jobs st' = jobs st ∧ applications st' = applications st
  ∧ scheduler_jobs st' = scheduler_jobs st
  ∧ selenium_calls st' = selenium_calls st
  ∧ (∀ k u, users st !! k = Some u →
       ∃ u', users st' !! k = Some u'
             ∧ email u' = email u ∧ password u' = password u).
Proof.
  destruct (upload_resume_route_cases uid file uuid4 st)
    as [->|(k & user & f & parsed & _ & Hu & _ & _ & _ & ->)]; simpl.
  - do 4 (split; [done|]). intros k u Hk. by exists u.
  - do 4 (split; [done|]). intros k' u Hk.
    destruct (decide (k = k')) as [<-|Hne].
    + rewrite lookup_insert_eq. rewrite Hu in Hk. injection Hk as <-.
      by eexists.
    + rewrite lookup_insert_ne by done. by exists u.
Qed.

End UploadLemmas.


(** ** Nothing is lost *)

Lemma grows_refl st : grows st st.
Proof.
  split; [|split]; [intros k u H; by exists u | done | apply extends_refl].
Qed.

Lemma grows_trans st1 st2 st3 : grows st1 st2 → grows st2 st3 → grows st1 st3.
Proof.
  intros (Hu1 & Hj1 & Ha1) (Hu2 & Hj2 & Ha2). split; [|split].
  - intros k u Hk. destruct (Hu1 k u Hk) as (u' & Hk' & He & Hp).
    destruct (Hu2 k u' Hk') as (u'' & Hk'' & He' & Hp').
    exists u''. split; [done|]. split; congruence.
  - intros k j Hk. by apply Hj2, Hj1.
  - by eapply extends_trans.
Qed.

Lemma grows_same_tables st st' :
  users st' = users st → jobs st' = jobs st →
  extends (applications st) (applications st') → grows st st'.
Proof.
  intros Hu Hj Ha. split; [|split]; [|by rewrite Hj|done].
  intros k u Hk. exists u. by rewrite Hu.
Qed.

Lemma grows_is_Some st st' :
  grows st st' →
  (∀ k, is_Some (users st !! k) → is_Some (users st' !! k))
  ∧ (∀ k, is_Some (jobs st !! k) → is_Some (jobs st' !! k))
  ∧ (∀ uid jid, is_Some (filter_by_first uid jid (applications st)) →
       is_Some (filter_by_first uid jid (applications st'))).
Proof.
  intros (Hu & Hj & Ha). split; [|split].
  - intros k [u Hk]. destruct (Hu k u Hk) as (u' & -> & _). eauto.
  - intros k [j Hk]. rewrite (Hj k j Hk). eauto.
  - intros uid jid. by apply filter_by_first_extends.
Qed.

Section SiteLemmas.

Variable strptime : string → option datetime.
Variable lower : string → string.
Variable extract_text : string → option string.
Variable nlp : string → spacy_doc.
Variable secure_filename : string → string.
Variable upload_folder : string.

Abbreviation serve' := (serve strptime lower extract_text nlp secure_filename upload_folder).
Abbreviation serve_all' :=
  (serve_all strptime lower extract_text nlp secure_filename upload_folder).

Lemma serve_grows st c : grows st (serve' st c).
Proof.
  destruct c; simpl; try apply grows_refl.
  - split; [|split].
    + intros k u Hk. exists u. by rewrite (register_keeps_accounts data st k u Hk).
    + destruct (register_frame data st) as (-> & _). done.
    + destruct (register_frame data st) as (_ & -> & _). apply extends_refl.
  - destruct (upload_resume_route_frame lower extract_text nlp secure_filename
                upload_folder uid file uuid4 st) as (Hj & Ha & _ & _ & Hu).
    split; [done|]. split; [by rewrite Hj|]. rewrite Ha. apply extends_refl.
  - destruct (search_jobs_route_frame uid keyword st) as (Hu & Ha & _ & _ & Hj).
    split; [|split]; [|done|rewrite Ha; apply extends_refl].
    intros k u Hk. exists u. by rewrite Hu.
  - destruct (apply_job_route_frame strptime now browser_ok data st) as [Hu Hj].
    apply grows_same_tables; [done..|]. apply apply_job_route_extends.
  - destruct (execute_application_frame now browser_ok uid jid st) as (Hu & Hj & _).
    apply grows_same_tables; [done..|]. apply execute_application_extends.
Qed.

Lemma serve_all_grows cs st : grows st (serve_all' cs st).
Proof.
  revert st. induction cs as [|c cs IH]; intros st; simpl; [apply grows_refl|].
  eapply grows_trans; [apply serve_grows | apply IH].
Qed.

(** *** Unique emails *)

Lemma serve_unique_emails st c :
  unique_emails (users st) → unique_emails (users (serve' st c)).
Proof.
  intros Huniq. destruct c; simpl; try done.
  - by apply register_unique_emails.
  - destruct (upload_resume_route_cases lower extract_text nlp secure_filename
                upload_folder uid file uuid4 st)
      as [->|(k & user & f & parsed & _ & Hu & _ & _ & _ & ->)]; [done|].
    simpl. intros i j u v Hi Hj Heq.
    assert (∀ i u, <[k:=set_resume_path
                          (path_join upload_folder
                             (uuid4 +:+ "_" +:+ secure_filename (filename f))) user]>
                     (users st) !! i = Some u →
                   ∃ u0, users st !! i = Some u0 ∧ email u0 = email u) as Hback.
    { intros i' u' H. destruct (decide (k = i')) as [<-|Hne].
      - rewrite lookup_insert_eq in H. injection H as <-. by exists user.
      - rewrite lookup_insert_ne in H by done. by exists u'. }
    destruct (Hback i u Hi) as (u0 & Hi0 & Hei).
    destruct (Hback j v Hj) as (v0 & Hj0 & Hej).
    apply (Huniq i j u0 v0 Hi0 Hj0). congruence.
  - destruct (search_jobs_route_frame uid keyword st) as (-> & _). done.
  - destruct (apply_job_route_frame strptime now browser_ok data st) as [-> _]. done.
  - destruct (execute_application_frame now browser_ok uid jid st) as (-> & _). done.
Qed.

Lemma serve_all_unique_emails cs st :
  unique_emails (users st) → unique_emails (users (serve_all' cs st)).
Proof.
  revert st. induction cs as [|c cs IH]; intros st H; simpl; [done|].
  apply IH. by apply serve_unique_emails.
Qed.

(** *** Foreign keys *)

Lemma fk_ok_grows st st' :
  grows st st' → applications st' = applications st → fk_ok st → fk_ok st'.
Proof.
  intros Hg Ha Hfk. destruct (grows_is_Some st st' Hg) as (Hu & Hj & _).
  unfold fk_ok in *. rewrite Ha. eapply Forall_impl; [exact Hfk|].
  intros a [H1 H2]. split; [by apply Hu | by apply Hj].
Qed.

Lemma serve_fk_ok st c : fk_ok st → fk_ok (serve' st c).
Proof.
  intros Hfk. pose proof (serve_grows st c) as Hg. destruct c; simpl in *; try done.
  - apply (fk_ok_grows st); [done| |done].
    by destruct (register_frame data st) as (_ & -> & _).
  - apply (fk_ok_grows st); [done| |done].
    by destruct (upload_resume_route_frame lower extract_text nlp secure_filename
                   upload_folder uid file uuid4 st) as (_ & -> & _).
  - apply (fk_ok_grows st); [done| |done].
    by destruct (search_jobs_route_frame uid keyword st) as (_ & -> & _).
  - apply (run_op_fk_ok strptime st (RequestApplication now browser_ok data) Hfk).
  - apply (run_op_fk_ok strptime st (Execute now browser_ok uid jid) Hfk).
Qed.

Lemma serve_all_fk_ok cs st : fk_ok st → fk_ok (serve_all' cs st).
Proof.
  revert st. induction cs as [|c cs IH]; intros st H; simpl; [done|].
  apply IH. by apply serve_fk_ok.
Qed.

(** *** One row per pair *)

Lemma commit_same_table_unique st st' :
  unique_pairs st → applications st' = applications st →
  (commits st' = commits st ∨ commits st' = applications st :: commits st) →
  unique_pairs st'.
Proof.
  intros [Ha Hc] Happs Hcm. split; [by rewrite Happs|].
  destruct Hcm as [-> | ->]; [done | by constructor].
Qed.

Lemma serve_unique_pairs st c : unique_pairs st → unique_pairs (serve' st c).
Proof.
  intros H. destruct c; simpl; try done.
  - destruct (register_frame data st) as (_ & Ha & _ & _ & Hc).
    by apply (commit_same_table_unique st).
  - destruct (upload_resume_route_cases lower extract_text nlp secure_filename
                upload_folder uid file uuid4 st)
      as [->|(k & user & f & parsed & _ & _ & _ & _ & _ & ->)]; [done|].
    apply (commit_same_table_unique st); [done|done|by right].
  - destruct (uid ≫= (users st !!.)) as [user|] eqn:Hu.
    + destruct uid as [k0|]; [|done]. simpl in Hu.
      destruct (search_jobs_route_cases (Some k0) keyword st k0 user eq_refl Hu)
        as [(k & _ & _ & ->)|(_ & ->)]; [done|].
      apply (commit_same_table_unique st); [done|done|by right].
    + by rewrite search_jobs_route_unknown.
  - by apply apply_job_route_unique.
  - by apply execute_application_unique.
Qed.

Lemma serve_all_unique_pairs cs st :
  unique_pairs st → unique_pairs (serve_all' cs st).
Proof.
  revert st. induction cs as [|c cs IH]; intros st H; simpl; [done|].
  apply IH. by apply serve_unique_pairs.
Qed.

End SiteLemmas.

(** ** Writes to table [application] *)

Lemma execute_application_table_steps now ok uid jid st :
  rtc table_step (applications st) (applications (execute_application now ok uid jid st).2).
Proof.
  pose proof (execute_application_cases now ok uid jid st) as H. cbv zeta in H.
  destruct (users st !! uid); [destruct (jobs st !! jid)|]; try (rewrite H; done).
  destruct H as (_ & _ & _ & _ & H). destruct ok.
  - destruct H as (_ & -> & _).
    destruct (filter_by_first uid jid (applications st)) eqn:Hf;
      apply rtc_once; by constructor.
  - destruct H as (_ & -> & _). done.
Qed.

Lemma update_first_app_ids uid jid s at_ apps :
  app_id <$> update_first uid jid s at_ apps = app_id <$> apps.
Proof.
  induction apps as [|a rest IH]; [done|]. cbn [update_first].
  destruct (matches uid jid a); rewrite !fmap_cons; [done | by rewrite IH].
Qed.

Lemma update_first_Forall (P : Application → Prop) uid jid s at_ apps :
  (∀ a, P (mk_Application (app_id a) (user_id a) (job_id a) s at_)) →
  Forall P apps → Forall P (update_first uid jid s at_ apps).
Proof.
  intros Hnew. induction 1 as [|a rest Ha Hrest IH]; simpl; [done|].
  destruct (matches uid jid a); constructor; auto.
Qed.

Lemma table_step_status_ok old new :
  table_step old new → Forall status_ok old → Forall status_ok new.
Proof.
  intros [uid jid now|uid jid _|uid jid now _] H.
  - apply update_first_Forall; [|done]. intros a. right. simpl. eauto.
  - apply Forall_app. split; [done|]. apply Forall_singleton. by left.
  - apply Forall_app. split; [done|]. apply Forall_singleton. right. simpl. eauto.
Qed.

Lemma add_application_app_ids_NoDup uid jid s at_ apps :
  NoDup (app_id <$> apps) → NoDup (app_id <$> add_application uid jid s at_ apps).
Proof.
  intros H. unfold add_application. rewrite fmap_app. simpl.
  apply NoDup_app. split; [done|]. split; [|apply NoDup_singleton].
  intros x Hx Hx'. apply list_elem_of_singleton in Hx'. subst x.
  apply list_elem_of_fmap in Hx as (a & Heq & Ha).
  apply next_id_bound in Ha. lia.
Qed.

Lemma table_step_app_ids old new :
  table_step old new → NoDup (app_id <$> old) → NoDup (app_id <$> new).
Proof.
  intros [uid jid now|uid jid _|uid jid now _] H.
  - by rewrite update_first_app_ids.
  - by apply add_application_app_ids_NoDup.
  - by apply add_application_app_ids_NoDup.
Qed.

Lemma table_steps_invariant (P : list Application → Prop) old new :
  (∀ l l', table_step l l' → P l → P l') →
  rtc table_step old new → P old → P new.
Proof. intros Hstep. induction 1; eauto. Qed.

Lemma scheduled_ok_grows st st' :
  grows st st' → scheduler_jobs st' = scheduler_jobs st →
  scheduled_ok st → scheduled_ok st'.
Proof.
  intros Hg Hs Hok. destruct (grows_is_Some st st' Hg) as (Hu & Hj & Ha).
  unfold scheduled_ok in *. rewrite Hs.
  eapply map_Forall_impl; [exact Hok|].
  intros k j (Hk & H1 & H2 & H3). auto.
Qed.

Section SiteInvariants.

Variable strptime : string → option datetime.
Variable lower : string → string.
Variable extract_text : string → option string.
Variable nlp : string → spacy_doc.
Variable secure_filename : string → string.
Variable upload_folder : string.

Abbreviation serve'' := (serve strptime lower extract_text nlp secure_filename upload_folder).
Abbreviation serve_all'' :=
  (serve_all strptime lower extract_text nlp secure_filename upload_folder).

Lemma apply_job_route_table_steps now ok data st :
  rtc table_step (applications st)
      (applications (apply_job_route strptime now ok data st).2).
Proof.
  destruct (apply_job_route_state strptime now ok data st)
    as [->|(uid & jid & _ & _ & _ & _ & Hf & [->|[(dt & ->)| ->]])]; [done|..].
  - apply rtc_once. by constructor.
  - apply rtc_once. by constructor.
  - eapply rtc_l; [by apply (step_add_pending _ uid jid)|].
    apply (execute_application_table_steps now ok uid jid (pending_committed uid jid st)).
Qed.

Lemma serve_table_steps st c :
  rtc table_step (applications st) (applications (serve'' st c)).
Proof.
  destruct c; simpl; try done.
  - by destruct (register_frame data st) as (_ & -> & _).
  - by destruct (upload_resume_route_frame lower extract_text nlp secure_filename
                   upload_folder uid file uuid4 st) as (_ & -> & _).
  - by destruct (search_jobs_route_frame uid keyword st) as (_ & -> & _).
  - apply apply_job_route_table_steps.
  - apply execute_application_table_steps.
Qed.

Lemma serve_all_table_steps cs st :
  rtc table_step (applications st) (applications (serve_all'' cs st)).
Proof.
  revert st. induction cs as [|c cs IH]; intros st; simpl; [done|].
  etrans; [apply serve_table_steps | apply IH].
Qed.

Lemma serve_scheduler st c :
  scheduler_jobs (serve'' st c) = scheduler_jobs st
  ∨ ∃ now ok data uid jid dt,
      c = CallApply now ok data
      ∧ req_user_id data = Some uid ∧ req_job_id data = Some jid
      ∧ is_Some (users st !! uid) ∧ is_Some (jobs st !! jid)
      ∧ filter_by_first uid jid (applications st) = None
      ∧ serve'' st c = schedule_application uid jid dt (pending_committed uid jid st).
Proof.
  destruct c; simpl; try by left.
  - left. by destruct (register_frame data st) as (_ & _ & -> & _).
  - left. by destruct (upload_resume_route_frame lower extract_text nlp secure_filename
                         upload_folder uid file uuid4 st) as (_ & _ & -> & _).
  - left. by destruct (search_jobs_route_frame uid keyword st) as (_ & _ & -> & _).
  - destruct (apply_job_route_state strptime now browser_ok data st)
      as [->|(uid & jid & Hu & Hj & Hus & Hjs & Hf & [->|[(dt & Hst)| ->]])];
      [by left|by left| |].
    + right. by exists now, browser_ok, data, uid, jid, dt.
    + left. by destruct (execute_application_frame now browser_ok uid jid
                           (pending_committed uid jid st)) as (_ & _ & ->).
  - left. by destruct (execute_application_frame now browser_ok uid jid st)
      as (_ & _ & ->).
Qed.

Lemma serve_scheduled_ok st c : scheduled_ok st → scheduled_ok (serve'' st c).
Proof.
  intros Hok. pose proof (serve_grows strptime lower extract_text nlp
                            secure_filename upload_folder st c) as Hg.
  destruct (serve_scheduler st c)
    as [Hs|(now & ok & data & uid & jid & dt & -> & Hu & Hj & Hus & Hjs & Hf & Hst)].
  - by apply (scheduled_ok_grows st).
  - rewrite Hst in *. unfold scheduled_ok. simpl. unfold add_job.
    apply map_Forall_insert_2.
    + simpl. do 3 (split; [done|]). rewrite filter_by_first_add by done. eauto.
    + destruct (grows_is_Some _ _ Hg) as (Hgu & Hgj & Hga).
      eapply map_Forall_impl; [exact Hok|].
      intros k j (Hk & H1 & H2 & H3). do 3 (split; [done|]).
      by apply Hga in H3.
Qed.

Lemma serve_all_scheduled_ok cs st :
  scheduled_ok st → scheduled_ok (serve_all'' cs st).
Proof.
  revert st. induction cs as [|c cs IH]; intros st H; simpl; [done|].
  apply IH. by apply serve_scheduled_ok.
Qed.

End SiteInvariants.

(** ** The immediate path of [apply_job_route] *)

Lemma update_first_add uid jid s0 at0 s at_ apps :
  filter_by_first uid jid apps = None →
  update_first uid jid s at_ (add_application uid jid s0 at0 apps)
  = add_application uid jid s at_ apps.
Proof.
  unfold add_application. generalize (next_id apps) as n.
  induction apps as [|a rest IH]; intros n; simpl.
  - intros _. unfold matches. simpl. by rewrite !bool_decide_eq_true_2.
  - destruct (matches uid jid a); [done|]. intros H. by rewrite IH.
Qed.

Lemma update_first_twice uid jid s1 at1 s2 at2 apps :
  update_first uid jid s2 at2 (update_first uid jid s1 at1 apps)
  = update_first uid jid s2 at2 apps.
Proof.
  induction apps as [|a rest IH]; simpl; [done|].
  destruct (matches uid jid a) eqn:Hm; simpl.
  - by rewrite matches_update, Hm.
  - by rewrite Hm, IH.
Qed.

Lemma filter_by_first_update uid jid s at_ apps :
  is_Some (filter_by_first uid jid apps) →
  is_Some (filter_by_first uid jid (update_first uid jid s at_ apps)).
Proof.
  apply filter_by_first_extends, extends_update_first.
Qed.

Section Immediate.

Variable strptime : string → option datetime.

(** A schedule time that Python takes as false. *)
Lemma apply_job_route_immediate now ok data st uid jid user job :
  req_user_id data = Some uid → users st !! uid = Some user →
  req_job_id data = Some jid → jobs st !! jid = Some job →
  filter_by_first uid jid (applications st) = None →
  (req_schedule_time data = Absent ∨ req_schedule_time data = Text ""
   ∨ req_schedule_time data = NonText false) →
  let r := apply_job_route strptime now ok data st in
  let pending := add_application uid jid Pending None (applications st) in
  let applied := add_application uid jid Applied (Some now) (applications st) in
  selenium_calls r.2 = (apply_link job, resume_path user) :: selenium_calls st
  ∧ scheduler_jobs r.2 = scheduler_jobs st
  ∧ users r.2 = users st ∧ jobs r.2 = jobs st
  ∧ if ok
    then r.1 = Returned (mk_response 200 (message "Applied immediately"))
         ∧ applications r.2 = applied
         ∧ commits r.2 = applied :: pending :: commits st
    else r.1 = Raised WebDriverException
         ∧ applications r.2 = pending
         ∧ commits r.2 = pending :: commits st.
Proof.
  intros Hu Hus Hj Hjs Hf Hs r pending applied. subst r.
  rewrite (apply_job_route_accepted strptime now ok data st uid jid user job)
    by done.
  assert (match req_schedule_time data with
          | Absent | Text "" | NonText false => True
          | _ => False
          end) as Hfalsy by (destruct Hs as [->|[->| ->]]; done).
  cbv zeta.
  pose proof (execute_application_cases now ok uid jid (pending_committed uid jid st))
    as H. cbv zeta in H.
  assert (users (pending_committed uid jid st) !! uid = Some user) as Hus1 by done.
  assert (jobs (pending_committed uid jid st) !! jid = Some job) as Hjs1 by done.
  rewrite Hus1, Hjs1 in H.
  change (applications (pending_committed uid jid st))
    with (add_application uid jid Pending None (applications st)) in H.
  change (commits (pending_committed uid jid st))
    with (add_application uid jid Pending None (applications st) :: commits st) in H.
  change (selenium_calls (pending_committed uid jid st)) with (selenium_calls st) in H.
  change (users (pending_committed uid jid st)) with (users st) in H.
  change (jobs (pending_committed uid jid st)) with (jobs st) in H.
  change (scheduler_jobs (pending_committed uid jid st)) with (scheduler_jobs st) in H.
  rewrite filter_by_first_add, update_first_add in H by done.
  fold applied pending in H.
  destruct (execute_application now ok uid jid (pending_committed uid jid st))
    as [res st2]. cbn [fst snd] in H.
  destruct H as (Hc & Hu2 & Hj2 & Hs2 & H).
  assert ((match res with
           | Raised e => (Raised e, st2)
           | Returned _ =>
               (Returned (mk_response 200 (message "Applied immediately")), st2)
           end).2 = st2) as Hst2 by by destruct res.
  assert (∀ x : outcome response * state,
    x = match res with
        | Raised e => (Raised e, st2)
        | Returned _ =>
            (Returned (mk_response 200 (message "Applied immediately")), st2)
        end →
    selenium_calls x.2 = (apply_link job, resume_path user) :: selenium_calls st
    ∧ scheduler_jobs x.2 = scheduler_jobs st
    ∧ users x.2 = users st ∧ jobs x.2 = jobs st
    ∧ if ok
      then x.1 = Returned (mk_response 200 (message "Applied immediately"))
           ∧ applications x.2 = applied
           ∧ commits x.2 = applied :: pending :: commits st
      else x.1 = Raised WebDriverException
           ∧ applications x.2 = pending
           ∧ commits x.2 = pending :: commits st) as Hgoal.
  { intros x ->. rewrite Hst2. do 4 (split; [done|]).
    destruct ok; destruct H as (-> & Ha & Hcm); simpl; [|done].
    split; [done|]. split; [done|]. by rewrite Hcm, Ha. }
  destruct (req_schedule_time data) as [|s|[]]; try done; try by apply Hgoal.
  destruct s; [by apply Hgoal | done].
Qed.

End Immediate.

Example some_calls_run :
  let st := serve_example some_calls store0 in
  dom (users st) = {[1; 2]}
  ∧ jobs st !! 2 = Some (mk_Job "Data Scientist" "ABC Corp" None
                                (Some "https://example.com/apply/123"))
  ∧ (resume_path <$> users st !! 2) = Some (Some "uploads/0f8fad5b_cv.pdf")
  ∧ applications st
    = [mk_Application 1 2 2 Applied (Some t2026);
       mk_Application 2 1 2 Pending None;
       mk_Application 3 1 1 Applied (Some t2027);
       mk_Application 4 2 1 Applied (Some t2027)]
  ∧ stored_run_dates 1 1 (scheduler_jobs st) = [t2027].
Proof. vm_compute. done. Qed.

(** * Further statements *)

Section CoreStatements.

Variable strptime : string → option datetime.
Variable lower : string → string.
Variable extract_text : string → option string.
Variable nlp : string → spacy_doc.
Variable secure_filename : string → string.
Variable upload_folder : string.

Abbreviation run := (serve_all strptime lower extract_text nlp secure_filename upload_folder).

(** X1. A request without a schedule time (missing, empty, or another
    false value), for ids that resolve and a pair without a row, with the
    browser step going through: the answer is "Applied immediately", the
    table gains one row for the pair with status [Applied] and
    [applied_at = now], committed first as [Pending] and then as
    [Applied]; the browser is called once, with the job's link and the
    user's resume path, and nothing is scheduled. *)
Theorem apply_immediately_applied now data (st : state) uid jid user job :
  req_user_id data = Some uid → users st !! uid = Some user →
  req_job_id data = Some jid → jobs st !! jid = Some job →
  filter_by_first uid jid (applications st) = None →
  (req_schedule_time data = Absent ∨ req_schedule_time data = Text ""
   ∨ req_schedule_time data = NonText false) →
  let r := apply_job_route strptime now true data st in
  let row s at_ := mk_Application (next_id (applications st)) uid jid s at_ in
  r.1 = Returned (mk_response 200 (message "Applied immediately"))
  ∧ applications r.2 = applications st ++ [row Applied (Some now)]
  ∧ commits r.2 = (applications st ++ [row Applied (Some now)])
                  :: (applications st ++ [row Pending None]) :: commits st
  ∧ selenium_calls r.2 = (apply_link job, resume_path user) :: selenium_calls st
  ∧ scheduler_jobs r.2 = scheduler_jobs st.
Proof.
  intros Hu Hus Hj Hjs Hf Hs r row.
  destruct (apply_job_route_immediate strptime now true data st uid jid user job
              Hu Hus Hj Hjs Hf Hs) as (Hc & Hsch & _ & _ & Hr & Ha & Hcm).
  done.
Qed.

(** X2. The same request when the browser step raises: the exception
    leaves the handler, the row stays in the table as [Pending], committed,
    and from then on, whatever is called in between, every request for the
    pair is answered "Already applied" and changes nothing: the route
    offers no second attempt. *)
Theorem apply_immediately_browser_fails now data (st : state) uid jid user job :
  req_user_id data = Some uid → users st !! uid = Some user →
  req_job_id data = Some jid → jobs st !! jid = Some job →
  filter_by_first uid jid (applications st) = None →
  (req_schedule_time data = Absent ∨ req_schedule_time data = Text ""
   ∨ req_schedule_time data = NonText false) →
  let r := apply_job_route strptime now false data st in
  let pending := mk_Application (next_id (applications st)) uid jid Pending None in
  r.1 = Raised WebDriverException
  ∧ applications r.2 = applications st ++ [pending]
  ∧ commits r.2 = (applications st ++ [pending]) :: commits st
  ∧ selenium_calls r.2 = (apply_link job, resume_path user) :: selenium_calls st
  ∧ ∀ cs now' ok' data',
      req_user_id data' = Some uid → req_job_id data' = Some jid →
      let st' := run cs r.2 in
      apply_job_route strptime now' ok' data' st' = (Returned DuplicateApplication, st').
Proof.
  intros Hu Hus Hj Hjs Hf Hs r pending.
  destruct (apply_job_route_immediate strptime now false data st uid jid user job
              Hu Hus Hj Hjs Hf Hs) as (Hc & _ & Hus2 & Hjs2 & Hr & Ha & Hcm).
  fold r in Hc, Hus2, Hjs2, Hr, Ha, Hcm. do 4 (split; [done|]).
  intros cs now' ok' data' Hu' Hj' st'.
  destruct (grows_is_Some r.2 st'
              (serve_all_grows strptime lower extract_text nlp secure_filename
                 upload_folder cs r.2)) as (Hgu & Hgj & Hga).
  apply (apply_job_route_existing strptime now' ok' data' st' uid jid); try done.
  - apply Hgu. rewrite Hus2, Hus. eauto.
  - apply Hgj. rewrite Hjs2, Hjs. eauto.
  - apply Hga. rewrite Ha.
    change (is_Some (filter_by_first uid jid
              (add_application uid jid Pending None (applications st)))).
    rewrite filter_by_first_add by done. eauto.
Qed.

(** X3. No call deletes or re-keys anything: after any sequence of calls
    every user is under its key with the email and the password it had,
    every job is under its key with the columns it had, and every
    application row is in its place with its key, user and job. *)
Theorem nothing_is_lost cs (st : state) : grows st (run cs st).
Proof. apply serve_all_grows. Qed.

(** X4. After any sequence of calls on a table whose rows are [Pending]
    without [applied_at] or [Applied] with one, every row still is: no
    call writes another status, a time on a [Pending] row, or an [Applied]
    row without a time. *)
Theorem statuses_stay_well_formed cs (st : state) :
  Forall status_ok (applications st) →
  Forall status_ok (applications (run cs st)).
Proof.
  apply (table_steps_invariant (Forall status_ok));
    [apply table_step_status_ok | apply serve_all_table_steps].
Qed.

(** X5. The primary keys of table [application] stay pairwise distinct
    over any sequence of calls. *)
Theorem primary_keys_stay_unique cs (st : state) :
  NoDup (app_id <$> applications st) →
  NoDup (app_id <$> applications (run cs st)).
Proof.
  apply (table_steps_invariant (λ l, NoDup (app_id <$> l)));
    [apply table_step_app_ids | apply serve_all_table_steps].
Qed.

(** X6. The foreign keys of table [application] stay valid over any
    sequence of calls: every row refers to a user and a job that are in
    their tables. *)
Theorem foreign_keys_stay_valid cs (st : state) : fk_ok st → fk_ok (run cs st).
Proof. apply serve_all_fk_ok. Qed.

(** X7. Emails stay unique over any sequence of calls: two users never
    share an email address. *)
Theorem emails_stay_unique cs (st : state) :
  unique_emails (users st) → unique_emails (users (run cs st)).
Proof. apply serve_all_unique_emails. Qed.

(** X8. At most one application row per [(user_id, job_id)] pair, in the
    table and in every committed snapshot, over any sequence of calls to
    any entry point, the commits of [register], [upload_resume] and
    [search_jobs] included. *)
Theorem one_row_per_pair_over_all_calls cs (st : state) uid jid :
  at_most_one (applications st) → Forall at_most_one (commits st) →
  (length (filter_by_all uid jid (applications (run cs st))) ≤ 1)%nat
  ∧ Forall (λ snapshot, (length (filter_by_all uid jid snapshot) ≤ 1)%nat)
           (commits (run cs st)).
Proof.
  intros Ha Hc.
  destruct (serve_all_unique_pairs strptime lower extract_text nlp secure_filename
              upload_folder cs st (conj Ha Hc)) as [Ha' Hc'].
  split; [apply Ha'|]. eapply Forall_impl; [exact Hc'|]. intros l H. apply H.
Qed.

(** X9. From a state in which every scheduled job sits under the id of
    its pair and the pair has its user, its job and its row, every state
    reached by any calls is such a state; so when the scheduler runs one of
    its jobs, [execute_application] finds the row: it keeps every row in
    place and adds none. *)
Theorem scheduled_jobs_have_rows cs (st : state) :
  scheduled_ok st →
  let st' := run cs st in
  scheduled_ok st'
  ∧ ∀ k j now ok,
      scheduler_jobs st' !! k = Some j →
      Forall2 same_identity (applications st')
        (applications (execute_application now ok (args j).1 (args j).2 st').2).
Proof.
  intros Hok st'.
  assert (scheduled_ok st') as Hok'
    by by apply serve_all_scheduled_ok.
  split; [done|]. intros k j now ok Hk.
  destruct (Hok' k j Hk) as (_ & _ & _ & [a Ha]).
  destruct (execute_application_rows now ok (args j).1 (args j).2 st')
    as [H|(Hnone & _)]; [done|]. by rewrite Ha in Hnone.
Qed.

End CoreStatements.

(** X10. The scheduler id determines the pair: two different pairs have
    different ids (["apply_1_23"] is not ["apply_12_3"]), so a registration
    for one pair leaves the job of every other pair in the store. *)
Theorem job_ids_are_distinct uid jid uid' jid' t (st : state) :
  (uid', jid') ≠ (uid, jid) →
  job_id_str uid' jid' ≠ job_id_str uid jid
  ∧ scheduler_jobs (schedule_application uid' jid' t st) !! job_id_str uid jid
    = scheduler_jobs st !! job_id_str uid jid.
Proof.
  intros Hne. split; [|by apply schedule_application_other_pair].
  intros H. apply job_id_str_inj in H as [-> ->]. done.
Qed.

(** X11. Running [execute_application] twice for a pair whose ids
    resolve, the browser step going through both times, leaves the table
    that the second run alone leaves; the browser is called both times. *)
Theorem execute_application_twice now1 now2 uid jid (st : state) user job :
  users st !! uid = Some user → jobs st !! jid = Some job →
  let once := (execute_application now2 true uid jid st).2 in
  let twice :=
    (execute_application now2 true uid jid
       (execute_application now1 true uid jid st).2).2 in
  applications twice = applications once
  ∧ selenium_calls twice
    = (apply_link job, resume_path user) :: (apply_link job, resume_path user)
      :: selenium_calls st.
Proof.
  intros Hu Hj once twice.
  pose proof (execute_application_cases now1 true uid jid st) as H1.
  pose proof (execute_application_cases now2 true uid jid st) as H0.
  cbv zeta in H1, H0. rewrite Hu, Hj in H1, H0.
  destruct H1 as (Hc1 & Hu1 & Hj1 & _ & _ & Ha1 & _).
  destruct H0 as (_ & _ & _ & _ & _ & Ha0 & _).
  pose proof (execute_application_cases now2 true uid jid
                (execute_application now1 true uid jid st).2) as H2.
  cbv zeta in H2. rewrite Hu1, Hj1, Hu, Hj in H2.
  destruct H2 as (Hc2 & _ & _ & _ & _ & Ha2 & _).
  fold twice in Hc2, Ha2. fold once in Ha0.
  split; [|by rewrite Hc2, Hc1].
  rewrite Ha2, Ha0, Ha1.
  destruct (filter_by_first uid jid (applications st)) eqn:Hf.
  - destruct (filter_by_first_update uid jid Applied (Some now1) (applications st))
      as [a' ->]; [eauto|]. apply update_first_twice.
  - rewrite filter_by_first_add by done. by apply update_first_add.
Qed.

(** ** [register] and [login] *)

(** X12. A registration whose email or password is missing, null or the
    empty string is answered 400 "Email and password required" and changes
    nothing. *)
Theorem register_rejects_incomplete data (st : state) :
  text_truthy (reg_email data) = false ∨ text_truthy (reg_password data) = false →
  register data st = (Returned credentials_required, st).
Proof.
  intros H. unfold register.
  destruct (reg_email data) as [[|c e]|], (reg_password data) as [[|c' p]|];
    try done.
  by destruct H.
Qed.

(** X13. A registration with the email of a stored user is answered 400
    "Email exists" and changes nothing: the stored account keeps its
    password and its other columns. *)
Theorem register_rejects_taken_email data (st : state) e p k u :
  reg_email data = Some e → reg_password data = Some p →
  e ≠ "" → p ≠ "" →
  users st !! k = Some u → email u = e →
  register data st = (Returned email_exists, st).
Proof.
  intros He Hp Hne Hnp Hk Heq.
  destruct (register_cases data st)
    as [[_ [H|H]]|[[H _]|(e' & p' & He' & _ & _ & _ & Hfresh & _)]]; [..|done|].
  - rewrite He in H. by destruct e.
  - rewrite Hp in H. by destruct p.
  - rewrite He in He'. injection He' as <-. by destruct (Hfresh k u Hk).
Qed.

Section Accounts.

Variable strptime : string → option datetime.
Variable lower : string → string.
Variable extract_text : string → option string.
Variable nlp : string → spacy_doc.
Variable secure_filename : string → string.
Variable upload_folder : string.

Abbreviation after := (serve_all strptime lower extract_text nlp secure_filename upload_folder).

(** X14. A registration with a non-empty password and a non-empty email
    that no stored user has, whose [experience] is missing or is an
    integer that SQLite can hold, is answered 201 "Registered"; the user
    is stored under a key that was not in use, with the columns of the
    request and no resume, and one commit is made. With unique emails
    before, a login with the same email and password succeeds with that
    key, at once and after any further calls. When [experience] is an
    integer outside that range, the INSERT raises [OverflowError]: the
    exception leaves the handler and the state is unchanged. *)
Theorem register_then_login data (st : state) e p :
  unique_emails (users st) →
  reg_email data = Some e → reg_password data = Some p →
  e ≠ "" → p ≠ "" →
  (∀ k u, users st !! k = Some u → email u ≠ e) →
  let r := register data st in
  let k := next_key (users st) in
  if bindable (reg_experience data)
  then r.1 = Returned registered
       ∧ users st !! k = None
       ∧ users r.2 !! k
         = Some (mk_User e p (reg_location data) (reg_experience data) None)
       ∧ commits r.2 = applications st :: commits st
       ∧ ∀ cs, login (mk_login_request (Some e) (Some p)) (after cs r.2)
               = login_successful k
  else r = (Raised OverflowError, st).
Proof.
  intros Huniq He Hp Hne Hnp Hfresh r k.
  assert (r = if bindable (reg_experience data)
              then (Returned registered,
                    commit (set_users
                      (<[k := mk_User e p (reg_location data) (reg_experience data) None]>
                         (users st)) st))
              else (Raised OverflowError, st)) as Hr.
  { subst r. destruct (register_cases data st)
      as [[_ [H|H]]|[[_ (e' & k' & u & He' & Hk' & Heq)]
                    |(e' & p' & He' & Hp' & _ & _ & _ & ->)]].
    - rewrite He in H. by destruct e.
    - rewrite Hp in H. by destruct p.
    - rewrite He in He'. injection He' as <-. by destruct (Hfresh k' u Hk').
    - rewrite He in He'. rewrite Hp in Hp'. by injection He' as <-; injection Hp' as <-. }
  pose proof (register_unique_emails data st Huniq) as Huniq2. fold r in Huniq2.
  destruct (bindable (reg_experience data)); [|done].
  assert (users r.2 !! k
          = Some (mk_User e p (reg_location data) (reg_experience data) None)) as Hk.
  { rewrite Hr. simpl. apply lookup_insert_eq. }
  split; [by rewrite Hr|]. split; [apply next_key_fresh|]. split; [done|].
  split; [by rewrite Hr|]. intros cs.
  pose proof (serve_all_unique_emails strptime lower extract_text nlp secure_filename
                upload_folder cs r.2 Huniq2) as Huniq3.
  destruct (serve_all_grows strptime lower extract_text nlp secure_filename
              upload_folder cs r.2) as (Hgu & _ & _).
  destruct (Hgu k _ Hk) as (u' & Hk' & Hemail & Hpw). simpl in Hemail, Hpw.
  unfold login. cbn [login_email login_password].
  rewrite <-Hemail, (filter_by_email_unique _ k u') by done.
  rewrite Hpw. by rewrite bool_decide_eq_true_2.
Qed.

End Accounts.

(** X15. With unique emails, a login succeeds with key [k] exactly when
    the user stored under [k] has the email and the password of the
    request; every other login is answered 401 "Invalid credentials".
    [login] never changes the state. *)
Theorem login_succeeds_iff data (st : state) k :
  unique_emails (users st) →
  (login data st = login_successful k
   ↔ ∃ u, users st !! k = Some u
          ∧ login_email data = Some (email u)
          ∧ login_password data = Some (password u))
  ∧ (login data st = invalid_credentials ∨ ∃ k', login data st = login_successful k').
Proof.
  intros Huniq. split; [split|].
  - unfold login.
    destruct (filter_by_email (login_email data) (users st)) as [[k' u]|] eqn:Hf;
      [|done].
    destruct (filter_by_email_Some _ _ _ _ Hf) as [Hk He].
    case_bool_decide as Hp; [|done].
    intros [= <-]. by exists u.
  - intros (u & Hk & He & Hp). unfold login.
    rewrite He, (filter_by_email_unique _ k u) by done.
    by rewrite bool_decide_eq_true_2.
  - unfold login.
    destruct (filter_by_email (login_email data) (users st)) as [[k' u]|];
      [|by left].
    case_bool_decide; [right; by exists k' | by left].
Qed.

(** ** [search_jobs_route] *)

(** X16. A search by a known user answers with one job, the placeholder
    job at the user's location, and the [job_id] of the answer is the key
    under which that job is in the table afterwards. Every job that was in
    the table is still there unchanged, and users, applications and
    scheduler are untouched. A search by an unknown user is answered 400
    "Invalid user ID" and changes nothing. *)
Theorem search_jobs_returns_stored_job uid keyword (st : state) :
  let r := search_jobs_route uid keyword st in
  match uid ≫= (users st !!.) with
  | None => r = (invalid_user_id, st)
  | Some user =>
      ∃ k, r.1 = jsonify [("jobs", JArr [job_entry k (scraped_for user)])] 200
           ∧ jobs r.2 !! k = Some (scraped_for user)
           ∧ (∀ k' j, jobs st !! k' = Some j → jobs r.2 !! k' = Some j)
           ∧ users r.2 = users st ∧ applications r.2 = applications st
           ∧ scheduler_jobs r.2 = scheduler_jobs st
  end.
Proof.
  intros r. destruct (uid ≫= (users st !!.)) as [user|] eqn:Hu;
    [|by apply search_jobs_route_unknown].
  destruct (search_jobs_route_frame uid keyword st) as (Hus & Ha & Hs & _ & Hjs).
  fold r in Hus, Ha, Hs, Hjs.
  destruct uid as [k0|]; [|done]. simpl in Hu.
  destruct (search_jobs_route_cases (Some k0) keyword st k0 user eq_refl Hu)
    as [(k & _ & Hk & Hr)|(_ & Hr)]; fold r in Hr.
  - exists k. rewrite Hr. simpl. rewrite Hr in Hjs. done.
  - exists (next_key (jobs st)). rewrite Hr in *. simpl.
    split; [done|]. split; [apply lookup_insert_eq | done].
Qed.

Lemma filter_by_job_inserted j js :
  filter_by_job j js = None →
  filter_by_job j (<[next_key js := j]> js) = Some (next_key js, j).
Proof.
  intros Hnone. rewrite filter_by_job_None in Hnone.
  destruct (filter_by_job j (<[next_key js := j]> js)) as [[k x]|] eqn:Hf.
  - destruct (filter_by_job_Some _ _ _ _ Hf) as [Hk ->].
    destruct (decide (k = next_key js)) as [->|Hne]; [done|].
    rewrite lookup_insert_ne in Hk by done. by destruct (Hnone k j Hk).
  - rewrite filter_by_job_None in Hf.
    by destruct (Hf (next_key js) j (lookup_insert_eq _ _ _)).
Qed.

(** X17. Searching again changes nothing: after a search, a second search
    by the same user, with any keyword, gives the answer of the first and
    leaves the state of the first. The job is stored once. *)
Theorem search_jobs_twice uid keyword keyword' (st : state) :
  let r := search_jobs_route uid keyword st in
  search_jobs_route uid keyword' r.2 = (r.1, r.2).
Proof.
  intros r. destruct (uid ≫= (users st !!.)) as [user|] eqn:Hu.
  - destruct uid as [k0|]; [|done]. simpl in Hu.
    destruct (search_jobs_route_cases (Some k0) keyword st k0 user eq_refl Hu)
      as [(k & Hf & Hk & Hr)|(Hf & Hr)]; fold r in Hr; rewrite Hr; simpl.
    + destruct (search_jobs_route_cases (Some k0) keyword' st k0 user eq_refl Hu)
        as [(k' & Hf' & _ & ->)|(Hf' & _)]; [|by rewrite Hf in Hf'].
      rewrite Hf in Hf'. by injection Hf' as <-.
    + set (st' := commit _).
      assert (users st' !! k0 = Some user) as Hu' by done.
      destruct (search_jobs_route_cases (Some k0) keyword' st' k0 user eq_refl Hu')
        as [(k' & Hf' & _ & ->)|(Hf' & _)].
      * change (jobs st') with (<[next_key (jobs st) := scraped_for user]> (jobs st))
          in Hf'.
        rewrite filter_by_job_inserted in Hf' by done. by injection Hf' as <-.
      * change (jobs st') with (<[next_key (jobs st) := scraped_for user]> (jobs st))
          in Hf'.
        by rewrite filter_by_job_inserted in Hf'.
  - subst r. rewrite (search_jobs_route_unknown _ _ _ Hu). simpl.
    by apply search_jobs_route_unknown.
Qed.

Section SearchApply.

Variable strptime : string → option datetime.

(** X18. The [job_id] that a search returns to a known user can be applied
    to: an immediate request of that user for that job, for a pair without
    a row and with the browser step going through, is answered "Applied
    immediately", and the browser is called with the placeholder's link
    and the user's resume path. *)
Theorem search_then_apply k0 keyword now (st : state) user :
  users st !! k0 = Some user →
  let s := search_jobs_route (Some k0) keyword st in
  ∃ k, s.1 = jsonify [("jobs", JArr [job_entry k (scraped_for user)])] 200
       ∧ (filter_by_first k0 k (applications st) = None →
          let r := apply_job_route strptime now true
                     (mk_apply_request (Some k0) (Some k) Absent) s.2 in
          r.1 = Returned (mk_response 200 (message "Applied immediately"))
          ∧ filter_by_first k0 k (applications r.2)
            = Some (mk_Application (next_id (applications st)) k0 k Applied (Some now))
          ∧ selenium_calls r.2
            = (Some "https://example.com/apply/123", resume_path user)
              :: selenium_calls st).
Proof.
  intros Hu s.
  destruct (search_jobs_route_frame (Some k0) keyword st) as (Hus & Ha & _ & Hc & _).
  fold s in Hus, Ha, Hc.
  assert (∃ k, s.1 = jsonify [("jobs", JArr [job_entry k (scraped_for user)])] 200
               ∧ jobs s.2 !! k = Some (scraped_for user)) as (k & Hs1 & Hk).
  { destruct (search_jobs_route_cases (Some k0) keyword st k0 user eq_refl Hu)
      as [(k & _ & Hk & Hr)|(_ & Hr)]; fold s in Hr; rewrite Hr; simpl.
    - by exists k.
    - exists (next_key (jobs st)). split; [done | apply lookup_insert_eq]. }
  exists k. split; [done|]. intros Hf r.
  assert (users s.2 !! k0 = Some user) as Hu2 by by rewrite Hus.
  assert (filter_by_first k0 k (applications s.2) = None) as Hf2 by by rewrite Ha.
  destruct (apply_job_route_immediate strptime now true
              (mk_apply_request (Some k0) (Some k) Absent) s.2 k0 k user
              (scraped_for user) eq_refl Hu2 eq_refl Hk Hf2 (or_introl eq_refl))
    as (Hcalls & _ & _ & _ & Hr & Happs & _).
  fold r in Hcalls, Hr, Happs. split; [done|]. split.
  - rewrite Happs, Ha. by apply filter_by_first_add.
  - by rewrite Hcalls, Hc.
Qed.

End SearchApply.

(** ** [application_status_route] *)

Lemma elem_of_filter_by_user k apps a :
  a ∈ filter_by_user k apps ↔ a ∈ apps ∧ user_id a = k.
Proof.
  unfold filter_by_user. rewrite !list_elem_of_In, List.filter_In.
  by rewrite bool_decide_eq_true.
Qed.

Section StatusLemmas.

Variable isoformat : datetime → string.

Lemma status_entries_Completes js apps :
  Forall (λ a, is_Some (js !! job_id a)) apps →
  ∃ result, status_entries isoformat js apps = Completes result
    ∧ Forall2 (λ a e, status_entry isoformat js a = Completes e) apps result.
Proof.
  induction 1 as [|a rest [job Ha] _ (result & IH & IH2)]; simpl.
  - by exists [].
  - unfold status_entry at 1. rewrite Ha, IH. eexists. split; [done|].
    constructor; [|done]. unfold status_entry. by rewrite Ha.
Qed.

Lemma status_entries_Fails js apps :
  (∃ e, status_entries isoformat js apps = Fails e)
  ↔ ∃ a, a ∈ apps ∧ js !! job_id a = None.
Proof.
  induction apps as [|a rest IH]; simpl.
  - split; [by intros [e ?] | intros (a & Ha & _); by apply elem_of_nil in Ha].
  - unfold status_entry at 1. destruct (js !! job_id a) as [job|] eqn:Hj.
    + destruct (status_entries isoformat js rest) as [xs|e] eqn:Hrest.
      * split; [by intros [e ?]|].
        intros (b & Hb & Hnone). apply elem_of_cons in Hb as [->|Hb].
        { by rewrite Hj in Hnone. }
        destruct (proj2 IH) as [e He]; [by exists b | done].
      * split; [|by exists e]. intros _.
        destruct (proj1 IH) as (b & Hb & Hnone); [by exists e|].
        exists b. split; [by right | done].
    + split; [|by exists AttributeError]. intros _. exists a. split; [left | done].
Qed.

Lemma status_entries_failure js apps e :
  status_entries isoformat js apps = Fails e → e = AttributeError.
Proof.
  revert e. induction apps as [|a rest IH]; simpl; [done|]. intros e.
  unfold status_entry. destruct (js !! job_id a).
  - destruct (status_entries isoformat js rest) as [xs|e'] eqn:Hrest; [done|].
    intros [= <-]. by apply IH.
  - by intros [= <-].
Qed.

Lemma application_status_route_completes k st user :
  fk_ok st → users st !! k = Some user →
  ∃ result,
    application_status_route isoformat (Some k) st
    = Completes (jsonify [("applications", JArr result)] 200)
    ∧ Forall2 (λ a e, status_entry isoformat (jobs st) a = Completes e)
              (filter_by_user k (applications st)) result.
Proof.
  intros Hfk Hu. unfold application_status_route. simpl. rewrite Hu. simpl.
  destruct (status_entries_Completes (jobs st) (filter_by_user k (applications st)))
    as (result & Hr & H2).
  { apply Forall_forall. intros a Ha. apply elem_of_filter_by_user in Ha as [Ha _].
    unfold fk_ok in Hfk. rewrite Forall_forall in Hfk. by destruct (Hfk a Ha). }
  exists result. by rewrite Hr.
Qed.

(** X19. In a table that respects its foreign keys, the status route
    answers a known user with one entry per application row of that user,
    in table order, each made of the row's key, status and time and of the
    title and company of its job. *)
Theorem status_lists_every_application k (st : state) user :
  fk_ok st → users st !! k = Some user →
  ∃ result,
    application_status_route isoformat (Some k) st
    = Completes (jsonify [("applications", JArr result)] 200)
    ∧ Forall2 (λ a e, status_entry isoformat (jobs st) a = Completes e)
              (filter_by_user k (applications st)) result.
Proof. apply application_status_route_completes. Qed.

(** X20. The status route of a known user ends in [AttributeError]
    instead of a reply exactly when one of the user's rows refers to a job
    that is not in the table; it never ends in another failure. An
    unknown user is answered 400 "Invalid user ID". *)
Theorem status_fails_iff_job_missing uid (st : state) :
  match uid ≫= (users st !!.) with
  | None => application_status_route isoformat uid st = Completes invalid_user_id
  | Some _ =>
      ∀ k, uid = Some k →
        (application_status_route isoformat uid st = Fails AttributeError
         ↔ ∃ a, a ∈ applications st ∧ user_id a = k ∧ jobs st !! job_id a = None)
        ∧ ∀ e, application_status_route isoformat uid st = Fails e → e = AttributeError
  end.
Proof.
  unfold application_status_route.
  destruct uid as [k|]; simpl; [|done].
  destruct (users st !! k) as [user|]; simpl; [|done].
  intros k' [= <-].
  pose proof (status_entries_Fails (jobs st) (filter_by_user k (applications st))) as H.
  pose proof (status_entries_failure (jobs st) (filter_by_user k (applications st)))
    as Hfail.
  destruct (status_entries isoformat _ _) as [result|e]; (split; [split|]).
  - done.
  - intros (a & Ha & Hk & Hnone).
    destruct (proj2 H) as [e He]; [|done].
    exists a. split; [by apply elem_of_filter_by_user | done].
  - done.
  - intros _. destruct (proj1 H) as (a & Ha & Hnone); [by exists e|].
    apply elem_of_filter_by_user in Ha as [Ha Hk]. by exists a.
  - intros _. by rewrite (Hfail e).
  - intros e' [= <-]. by apply Hfail.
Qed.

Section ApplyStatus.

Variable strptime : string → option datetime.

(** X21. After an immediate request that went through, in a table that
    respected its foreign keys, the status route of the user completes and
    the last entry of its answer is the new application: its key, the
    title and company of the job, status "Applied" and the time of the
    request in ISO format. *)
Theorem apply_then_status now data (st : state) uid jid user job :
  fk_ok st →
  req_user_id data = Some uid → users st !! uid = Some user →
  req_job_id data = Some jid → jobs st !! jid = Some job →
  filter_by_first uid jid (applications st) = None →
  req_schedule_time data = Absent →
  let r := apply_job_route strptime now true data st in
  ∃ earlier,
    application_status_route isoformat (Some uid) r.2
    = Completes (jsonify
        [("applications",
          JArr (earlier ++
                [JObj [("application_id", JNum (next_id (applications st)));
                       ("job_title", JStr (title job));
                       ("company", JStr (company job));
                       ("status", JStr "Applied");
                       ("applied_at", JStr (isoformat now))]]))] 200).
Proof.
  intros Hfk Hu Hus Hj Hjs Hf Hs r.
  destruct (apply_job_route_immediate strptime now true data st uid jid user job
              Hu Hus Hj Hjs Hf (or_introl Hs)) as (_ & _ & Hus2 & Hjs2 & _ & Ha & _).
  fold r in Hus2, Hjs2, Ha.
  assert (fk_ok r.2) as Hfk2
    by apply (run_op_fk_ok strptime st (RequestApplication now true data) Hfk).
  assert (users r.2 !! uid = Some user) as Hus3 by by rewrite Hus2.
  destruct (application_status_route_completes uid r.2 user Hfk2 Hus3) as (result & Hr & H2).
  rewrite Ha in H2. unfold add_application, filter_by_user in H2.
  rewrite List.filter_app in H2. simpl in H2.
  rewrite bool_decide_eq_true_2 in H2 by done.
  apply Forall2_app_inv_l in H2 as (earlier & last & _ & Hlast & ->).
  apply Forall2_cons_inv_l in Hlast as (e & rest & He & Hrest & ->).
  apply Forall2_nil_inv_l in Hrest as ->.
  unfold status_entry in He. simpl in He. rewrite Hjs2, Hjs in He.
  injection He as <-. by exists earlier.
Qed.

End ApplyStatus.

End StatusLemmas.

(** ** [parse_resume] *)

Lemma entity_step_name_falsy acc l :
  text_truthy acc.1 = false →
  Forall (λ x, ¬ (label_ x = "PERSON" ∧ ent_text x ≠ "")) l →
  text_truthy (foldl entity_step acc l).1 = false.
Proof.
  intros Hacc Hl. revert acc Hacc.
  induction Hl as [|x l Hx _ IH]; intros acc Hacc; simpl; [done|].
  apply IH. unfold entity_step. rewrite Hacc. simpl.
  case_bool_decide as Hp; simpl.
  - destruct (ent_text x) as [|c t] eqn:Ht; [done|].
    destruct Hx. by split.
  - by case_bool_decide.
Qed.

Lemma entity_step_name_kept acc l :
  text_truthy acc.1 = true → (foldl entity_step acc l).1 = acc.1.
Proof.
  revert acc. induction l as [|x l IH]; intros acc Hacc; simpl; [done|].
  assert ((entity_step acc x).1 = acc.1) as Hstep.
  { unfold entity_step. rewrite Hacc, andb_false_r. by case_bool_decide. }
  rewrite IH by by rewrite Hstep. done.
Qed.

Lemma entity_step_email_kept acc l :
  Forall (λ x, label_ x ≠ "EMAIL") l → (foldl entity_step acc l).2 = acc.2.
Proof.
  intros Hl. revert acc. induction Hl as [|x l Hx _ IH]; intros acc; simpl; [done|].
  rewrite IH. unfold entity_step.
  destruct (_ && _); [done|]. by rewrite bool_decide_eq_false_2.
Qed.

Section ParseStatements.

Variable lower : string → string.

(** X22. The name that [parse_resume] reports is the text of the first
    [PERSON] entity whose text is not empty: a [PERSON] entity with an
    empty text before it does not count, and no later entity replaces
    it. *)
Theorem parse_doc_name_is_first_person (d : spacy_doc) l1 e l2 :
  ents d = l1 ++ e :: l2 →
  label_ e = "PERSON" → ent_text e ≠ "" →
  Forall (λ x, ¬ (label_ x = "PERSON" ∧ ent_text x ≠ "")) l1 →
  parsed_name (parse_doc lower d) = Some (ent_text e).
Proof.
  intros Hd Hl Ht Hl1. unfold parse_doc. simpl. rewrite Hd, foldl_app. simpl.
  pose proof (entity_step_name_falsy (None, None) l1 eq_refl Hl1) as Hfalsy.
  set (acc := foldl entity_step (None, None) l1) in *.
  assert (entity_step acc e = (Some (ent_text e), acc.2)) as ->.
  { unfold entity_step. by rewrite bool_decide_eq_true_2, Hfalsy. }
  rewrite entity_step_name_kept; [done|]. simpl. by destruct (ent_text e).
Qed.

(** X23. The email that [parse_resume] reports is the text of the last
    entity labelled [EMAIL]. *)
Theorem parse_doc_email_is_last_email (d : spacy_doc) l1 e l2 :
  ents d = l1 ++ e :: l2 →
  label_ e = "EMAIL" →
  Forall (λ x, label_ x ≠ "EMAIL") l2 →
  parsed_email (parse_doc lower d) = Some (ent_text e).
Proof.
  intros Hd Hl Hl2. unfold parse_doc. simpl. rewrite Hd, foldl_app. simpl.
  rewrite entity_step_email_kept by done.
  unfold entity_step. rewrite Hl. simpl. done.
Qed.

(** X24. The skills that [parse_resume] reports are the known skills, in
    the order of the fixed list and each at most once, that equal the
    lower-cased text of a token that is not a stop word; nothing else is
    ever reported. *)
Theorem parse_doc_skills_are_known (d : spacy_doc) :
  sublist (parsed_skills (parse_doc lower d)) known_skills
  ∧ NoDup (parsed_skills (parse_doc lower d))
  ∧ ∀ s, s ∈ parsed_skills (parse_doc lower d)
         ↔ s ∈ known_skills
           ∧ ∃ t, t ∈ doc_tokens d ∧ is_stop t = false ∧ lower (tok_text t) = s.
Proof.
  unfold parse_doc. simpl. split; [apply sublist_filter|]. split.
  - apply NoDup_filter. unfold known_skills.
    apply NoDup_ListNoDup. repeat constructor; simpl; intuition discriminate.
  - intros s. rewrite list_elem_of_filter, list_elem_of_fmap.
    split.
    + intros [(t & -> & Ht) Hs]. apply list_elem_of_filter in Ht as [Hstop Ht].
      split; [done|]. by exists t.
    + intros [Hs (t & Ht & Hstop & <-)]. split; [|done].
      exists t. split; [done|]. by apply list_elem_of_filter.
Qed.

End ParseStatements.

(** ** [upload_resume_route] *)

Section UploadStatements.

Variable lower : string → string.
Variable extract_text : string → option string.
Variable nlp : string → spacy_doc.
Variable secure_filename : string → string.
Variable upload_folder : string.

Abbreviation upload_route :=
  (upload_resume_route lower extract_text nlp secure_filename upload_folder).

(** X25. An upload for an unknown user, without a file, or with a file
    whose name is empty is answered 400; nothing is written to disk and
    the state is unchanged. *)
Theorem upload_rejected_changes_nothing uid file uuid4 (st : state) :
  uid ≫= (users st !!.) = None ∨ file = None
  ∨ (∃ f, file = Some f ∧ filename f = "") →
  upload_route uid file uuid4 st
  = (Completes (if decide (uid ≫= (users st !!.) = None)
                then invalid_user_id else no_file_uploaded), st, None).
Proof.
  intros H. unfold upload_resume_route.
  destruct (uid ≫= (λ k, (k,.) <$> users st !! k)) as [[k user]|] eqn:Hu.
  - apply resolve_Some in Hu as [-> Hu]. simpl in *. rewrite Hu in *.
    rewrite decide_False by done.
    destruct H as [H|[->|(f & -> & Hf)]]; [done|done|].
    by rewrite bool_decide_eq_true_2.
  - apply resolve_None in Hu. by rewrite decide_True.
Qed.

(** X26. An upload that goes through writes the file under
    [UPLOAD_FOLDER] joined with ["<uuid>_<secure name>"], and commits that
    same path as the user's [resume_path]; the user's other columns and
    every other user are unchanged. *)
Theorem upload_stores_resume_path k f uuid4 (st : state) user parsed :
  users st !! k = Some user → filename f ≠ "" →
  parse_resume lower extract_text nlp (content f) = Some parsed →
  let r := upload_route (Some k) (Some f) uuid4 st in
  let path := path_join upload_folder (uuid4 +:+ "_" +:+ secure_filename (filename f)) in
  r.1.1 = Completes (jsonify [("message", JStr "Uploaded");
                              ("parsed_data", parsed_json parsed)] 200)
  ∧ r.2 = Some (path, content f)
  ∧ users r.1.2 !! k
    = Some (mk_User (email user) (password user) (user_location user)
                    (experience user) (Some path))
  ∧ (∀ k' u, k' ≠ k → users st !! k' = Some u → users r.1.2 !! k' = Some u)
  ∧ dom (users r.1.2) = dom (users st)
  ∧ commits r.1.2 = applications st :: commits st.
Proof.
  intros Hu Hf Hp r path. subst r. unfold upload_resume_route. simpl.
  rewrite Hu. simpl. rewrite bool_decide_eq_false_2 by done. rewrite Hp. simpl.
  do 2 (split; [done|]). split; [apply lookup_insert_eq|].
  split; [intros k' u Hne Hk'; by rewrite lookup_insert_ne|].
  split; [|done]. apply dom_insert_lookup_L. eauto.
Qed.

(** X27. When the uploaded file cannot be read, the handler ends in the
    error of the reader after the file was written: the file is on disk
    under its path, the state is unchanged and the user's [resume_path]
    still is what it was. *)
Theorem upload_unreadable_file k f uuid4 (st : state) user :
  users st !! k = Some user → filename f ≠ "" →
  extract_text (content f) = None →
  upload_route (Some k) (Some f) uuid4 st
  = (Fails ExtractionError, st,
     Some (path_join upload_folder (uuid4 +:+ "_" +:+ secure_filename (filename f)),
           content f)).
Proof.
  intros Hu Hf Hp. unfold upload_resume_route. simpl.
  rewrite Hu. simpl. rewrite bool_decide_eq_false_2 by done.
  unfold parse_resume. by rewrite Hp.
Qed.

(** X28. After an upload that went through, [execute_application] for
    that user hands the browser the path of the uploaded file as resume,
    with the link of the job. *)
Theorem upload_then_execute k f uuid4 now ok jid (st : state) user parsed job :
  users st !! k = Some user → filename f ≠ "" →
  parse_resume lower extract_text nlp (content f) = Some parsed →
  jobs st !! jid = Some job →
  let r := upload_route (Some k) (Some f) uuid4 st in
  let path := path_join upload_folder (uuid4 +:+ "_" +:+ secure_filename (filename f)) in
  r.2 = Some (path, content f)
  ∧ selenium_calls (execute_application now ok k jid r.1.2).2
    = (apply_link job, Some path) :: selenium_calls st.
Proof.
  intros Hu Hf Hp Hj r path.
  destruct (upload_resume_route_cases lower extract_text nlp secure_filename
              upload_folder (Some k) (Some f) uuid4 st)
    as [Hsame|(k' & user' & f' & parsed' & [= <-] & Hu' & [= <-] & _ & Hp' & Hr)].
  { exfalso. revert Hsame. unfold upload_resume_route. simpl. rewrite Hu. simpl.
    rewrite bool_decide_eq_false_2 by done. rewrite Hp. simpl.
    intros Hsame. apply (f_equal commits) in Hsame. simpl in Hsame.
    apply (f_equal length) in Hsame. simpl in Hsame. lia. }
  cbv zeta in Hr. fold r path in Hr. rewrite Hu in Hu'. injection Hu' as <-.
  rewrite Hr. simpl. split; [done|].
  pose proof (execute_application_cases now ok k jid
    (commit (set_users (<[k:=set_resume_path path user]> (users st)) st))) as H.
  cbv zeta in H. simpl in H. rewrite lookup_insert_eq, Hj in H.
  by destruct H as (-> & _).
Qed.

End UploadStatements.

(** * The further statements on concrete calls *)

Lemma store0_unique_emails : unique_emails (users store0).
Proof.
  change (users store0) with ({[1 := alice]} : gmap Z User).
  intros i j u v Hi Hj _.
  apply lookup_singleton_Some in Hi as [<- _].
  by apply lookup_singleton_Some in Hj as [<- _].
Qed.

Lemma store0_no_bob k u : users store0 !! k = Some u → email u ≠ "bob@example.com".
Proof.
  change (users store0) with ({[1 := alice]} : gmap Z User).
  intros H. by apply lookup_singleton_Some in H as [_ <-].
Qed.

Lemma apply_immediately_applied_witness :
  let r := apply_job_route strptime_padded t2026 true apply_now store0 in
  let row s at_ := mk_Application (next_id (applications store0)) 1 1 s at_ in
  r.1 = Returned (mk_response 200 (message "Applied immediately"))
  ∧ applications r.2 = applications store0 ++ [row Applied (Some t2026)]
  ∧ commits r.2 = (applications store0 ++ [row Applied (Some t2026)])
                  :: (applications store0 ++ [row Pending None]) :: commits store0
  ∧ selenium_calls r.2 = (apply_link job_ds, resume_path alice) :: selenium_calls store0
  ∧ scheduler_jobs r.2 = scheduler_jobs store0.
Proof.
  exact (apply_immediately_applied strptime_padded t2026 apply_now store0 1 1
           alice job_ds eq_refl eq_refl eq_refl eq_refl eq_refl (or_introl eq_refl)).
Defined.

Lemma apply_immediately_browser_fails_witness :
  let r := apply_job_route strptime_padded t2026 false apply_now store0 in
  let pending := mk_Application (next_id (applications store0)) 1 1 Pending None in
  r.1 = Raised WebDriverException
  ∧ applications r.2 = applications store0 ++ [pending]
  ∧ commits r.2 = (applications store0 ++ [pending]) :: commits store0
  ∧ selenium_calls r.2 = (apply_link job_ds, resume_path alice) :: selenium_calls store0
  ∧ ∀ cs now' ok' data',
      req_user_id data' = Some 1 → req_job_id data' = Some 1 →
      let st' := serve_example cs r.2 in
      apply_job_route strptime_padded now' ok' data' st'
      = (Returned DuplicateApplication, st').
Proof.
  exact (apply_immediately_browser_fails strptime_padded lower_ascii
           extract_text_example nlp_example secure_filename_example "uploads"
           t2026 apply_now store0 1 1 alice job_ds
           eq_refl eq_refl eq_refl eq_refl eq_refl (or_introl eq_refl)).
Defined.

Lemma statuses_stay_well_formed_witness :
  Forall status_ok (applications store0)
  ∧ Forall status_ok (applications (serve_example some_calls store0)).
Proof.
  assert (Forall status_ok (applications store0)) as H by constructor.
  split; [exact H|].
  exact (statuses_stay_well_formed strptime_padded lower_ascii extract_text_example
           nlp_example secure_filename_example "uploads" some_calls store0 H).
Defined.

Lemma primary_keys_stay_unique_witness :
  NoDup (app_id <$> applications store0)
  ∧ NoDup (app_id <$> applications (serve_example some_calls store0)).
Proof.
  assert (NoDup (app_id <$> applications store0)) as H by constructor.
  split; [exact H|].
  exact (primary_keys_stay_unique strptime_padded lower_ascii extract_text_example
           nlp_example secure_filename_example "uploads" some_calls store0 H).
Defined.

Lemma foreign_keys_stay_valid_witness :
  fk_ok store0 ∧ fk_ok (serve_example some_calls store0).
Proof.
  assert (fk_ok store0) as H by constructor.
  split; [exact H|].
  exact (foreign_keys_stay_valid strptime_padded lower_ascii extract_text_example
           nlp_example secure_filename_example "uploads" some_calls store0 H).
Defined.

Lemma emails_stay_unique_witness :
  unique_emails (users store0)
  ∧ unique_emails (users (serve_example some_calls store0)).
Proof.
  split; [exact store0_unique_emails|].
  exact (emails_stay_unique strptime_padded lower_ascii extract_text_example
           nlp_example secure_filename_example "uploads" some_calls store0
           store0_unique_emails).
Defined.

Lemma one_row_per_pair_over_all_calls_witness :
  (length (filter_by_all 1 2 (applications (serve_example some_calls store0))) ≤ 1)%nat
  ∧ Forall (λ snapshot, (length (filter_by_all 1 2 snapshot) ≤ 1)%nat)
           (commits (serve_example some_calls store0)).
Proof.
  assert (at_most_one (applications store0)) as H1 by (intros u j; simpl; lia).
  assert (Forall at_most_one (commits store0)) as H2 by constructor.
  exact (one_row_per_pair_over_all_calls strptime_padded lower_ascii
           extract_text_example nlp_example secure_filename_example "uploads"
           some_calls store0 1 2 H1 H2).
Defined.

Lemma scheduled_jobs_have_rows_witness :
  let st' := serve_example some_calls store0 in
  scheduled_ok st'
  ∧ ∀ k j now ok,
      scheduler_jobs st' !! k = Some j →
      Forall2 same_identity (applications st')
        (applications (execute_application now ok (args j).1 (args j).2 st').2).
Proof.
  assert (scheduled_ok store0) as H by apply map_Forall_empty.
  exact (scheduled_jobs_have_rows strptime_padded lower_ascii extract_text_example
           nlp_example secure_filename_example "uploads" some_calls store0 H).
Defined.

Lemma job_ids_are_distinct_witness :
  job_id_str 12 3 ≠ job_id_str 1 23
  ∧ scheduler_jobs (schedule_application 12 3 t2027 store0) !! job_id_str 1 23
    = scheduler_jobs store0 !! job_id_str 1 23.
Proof.
  assert ((12, 3) ≠ (1, 23)) as H by discriminate.
  exact (job_ids_are_distinct 1 23 12 3 t2027 store0 H).
Defined.

Lemma execute_application_twice_witness :
  let once := (execute_application t2027 true 1 1 store0).2 in
  let twice :=
    (execute_application t2027 true 1 1
       (execute_application t2026 true 1 1 store0).2).2 in
  applications twice = applications once
  ∧ selenium_calls twice
    = (apply_link job_ds, resume_path alice) :: (apply_link job_ds, resume_path alice)
      :: selenium_calls store0.
Proof.
  exact (execute_application_twice t2026 t2027 1 1 store0 alice job_ds
           eq_refl eq_refl).
Defined.

Lemma register_rejects_incomplete_witness :
  let data := mk_register_request (Some "carol@example.com") (Some "") None None in
  register data store0 = (Returned credentials_required, store0).
Proof.
  exact (register_rejects_incomplete
           (mk_register_request (Some "carol@example.com") (Some "") None None)
           store0 (or_intror eq_refl)).
Defined.

Lemma register_rejects_taken_email_witness :
  let data := mk_register_request (Some "alice@example.com") (Some "other") None None in
  register data store0 = (Returned email_exists, store0).
Proof.
  assert ("alice@example.com" ≠ "") as H1 by discriminate.
  assert ("other" ≠ "") as H2 by discriminate.
  exact (register_rejects_taken_email
           (mk_register_request (Some "alice@example.com") (Some "other") None None)
           store0 "alice@example.com" "other" 1 alice
           eq_refl eq_refl H1 H2 eq_refl eq_refl).
Defined.

Lemma register_then_login_witness :
  let r := register bob_request store0 in
  let k := next_key (users store0) in
  if bindable (reg_experience bob_request)
  then r.1 = Returned registered
       ∧ users store0 !! k = None
       ∧ users r.2 !! k = Some (mk_User "bob@example.com" "pw2" None (Some 4) None)
       ∧ commits r.2 = applications store0 :: commits store0
       ∧ ∀ cs, login (mk_login_request (Some "bob@example.com") (Some "pw2"))
                     (serve_example cs r.2)
               = login_successful k
  else r = (Raised OverflowError, store0).
Proof.
  assert ("bob@example.com" ≠ "") as H1 by discriminate.
  assert ("pw2" ≠ "") as H2 by discriminate.
  exact (register_then_login strptime_padded lower_ascii extract_text_example
           nlp_example secure_filename_example "uploads" bob_request store0
           "bob@example.com" "pw2" store0_unique_emails eq_refl eq_refl H1 H2
           store0_no_bob).
Defined.

Example register_experience_overflow :
  register (mk_register_request (Some "bob@example.com") (Some "pw2") None
                                (Some (2 ^ 63))) store0
  = (Raised OverflowError, store0).
Proof. vm_compute. done. Qed.

Example register_then_login_key : next_key (users store0) = 2.
Proof. reflexivity. Qed.

Lemma login_succeeds_iff_witness :
  let data := mk_login_request (Some "alice@example.com") (Some "pw") in
  (login data store0 = login_successful 1
   ↔ ∃ u, users store0 !! 1 = Some u
          ∧ login_email data = Some (email u)
          ∧ login_password data = Some (password u))
  ∧ (login data store0 = invalid_credentials
     ∨ ∃ k', login data store0 = login_successful k').
Proof.
  exact (login_succeeds_iff
           (mk_login_request (Some "alice@example.com") (Some "pw")) store0 1
           store0_unique_emails).
Defined.

Example login_examples :
  login (mk_login_request (Some "alice@example.com") (Some "pw")) store0
  = login_successful 1
  ∧ login (mk_login_request (Some "alice@example.com") (Some "PW")) store0
    = invalid_credentials
  ∧ login (mk_login_request None None) store0 = invalid_credentials.
Proof. vm_compute. done. Qed.

Lemma search_then_apply_witness :
  let s := search_jobs_route (Some 1) "data" store0 in
  ∃ k, s.1 = jsonify [("jobs", JArr [job_entry k (scraped_for alice)])] 200
       ∧ (filter_by_first 1 k (applications store0) = None →
          let r := apply_job_route strptime_padded t2026 true
                     (mk_apply_request (Some 1) (Some k) Absent) s.2 in
          r.1 = Returned (mk_response 200 (message "Applied immediately"))
          ∧ filter_by_first 1 k (applications r.2)
            = Some (mk_Application (next_id (applications store0)) 1 k Applied
                                   (Some t2026))
          ∧ selenium_calls r.2
            = (Some "https://example.com/apply/123", resume_path alice)
              :: selenium_calls store0).
Proof.
  exact (search_then_apply strptime_padded 1 "data" t2026 store0 alice eq_refl).
Defined.

Example search_examples :
  search_jobs_route (Some 1) "data" store0
  = (jsonify [("jobs", JArr [job_entry 1 job_ds])] 200, store0)
  ∧ (search_jobs_route (Some 1) "data" empty_db).1 = invalid_user_id.
Proof. vm_compute. done. Qed.

Lemma status_lists_every_application_witness :
  let st := store_with Applied (Some t2026) in
  ∃ result,
    application_status_route isoformat_example (Some 1) st
    = Completes (jsonify [("applications", JArr result)] 200)
    ∧ Forall2 (λ a e, status_entry isoformat_example (jobs st) a = Completes e)
              (filter_by_user 1 (applications st)) result.
Proof.
  assert (fk_ok (store_with Applied (Some t2026))) as H
    by (repeat constructor; eexists; reflexivity).
  exact (status_lists_every_application isoformat_example 1
           (store_with Applied (Some t2026)) alice H eq_refl).
Defined.

Example status_example :
  application_status_route isoformat_example (Some 1) (store_with Applied (Some t2026))
  = Completes (jsonify
      [("applications",
        JArr [JObj [("application_id", JNum 1); ("job_title", JStr "Data Scientist");
                    ("company", JStr "ABC Corp"); ("status", JStr "Applied");
                    ("applied_at", JStr "2026-11-03T12:00:00")]])] 200).
Proof. vm_compute. done. Qed.

(** A row whose job is not in the table makes the status route fail. *)
Example status_dangling_job :
  application_status_route isoformat_example (Some 1)
    (mk_state {[1 := alice]} ∅ [mk_Application 1 1 7 Pending None] [] ∅ [])
  = Fails AttributeError.
Proof. vm_compute. done. Qed.

Lemma apply_then_status_witness :
  let r := apply_job_route strptime_padded t2026 true apply_now store0 in
  ∃ earlier,
    application_status_route isoformat_example (Some 1) r.2
    = Completes (jsonify
        [("applications",
          JArr (earlier ++
                [JObj [("application_id", JNum (next_id (applications store0)));
                       ("job_title", JStr (title job_ds));
                       ("company", JStr (company job_ds));
                       ("status", JStr "Applied");
                       ("applied_at", JStr (isoformat_example t2026))]]))] 200).
Proof.
  assert (fk_ok store0) as H by constructor.
  exact (apply_then_status isoformat_example strptime_padded t2026 apply_now store0
           1 1 alice job_ds H eq_refl eq_refl eq_refl eq_refl eq_refl eq_refl).
Defined.

Lemma parse_doc_name_is_first_person_witness :
  parsed_name (parse_doc lower_ascii example_doc) = Some "Ada Lovelace".
Proof.
  assert ("Ada Lovelace" ≠ "") as H1 by discriminate.
  assert (Forall (λ x, ¬ (label_ x = "PERSON" ∧ ent_text x ≠ ""))
            [mk_entity "ORG" "ABC Corp"; mk_entity "PERSON" ""]) as H2.
  { repeat constructor; simpl; intros [H H']; [discriminate | by destruct H']. }
  exact (parse_doc_name_is_first_person lower_ascii example_doc
           [mk_entity "ORG" "ABC Corp"; mk_entity "PERSON" ""]
           (mk_entity "PERSON" "Ada Lovelace")
           [mk_entity "EMAIL" "ada@example.com"; mk_entity "PERSON" "Charles Babbage";
            mk_entity "EMAIL" "ada@work.example"]
           eq_refl eq_refl H1 H2).
Defined.

Lemma parse_doc_email_is_last_email_witness :
  parsed_email (parse_doc lower_ascii example_doc) = Some "ada@work.example".
Proof.
  exact (parse_doc_email_is_last_email lower_ascii example_doc
           [mk_entity "ORG" "ABC Corp"; mk_entity "PERSON" "";
            mk_entity "PERSON" "Ada Lovelace"; mk_entity "EMAIL" "ada@example.com";
            mk_entity "PERSON" "Charles Babbage"]
           (mk_entity "EMAIL" "ada@work.example") []
           eq_refl eq_refl (Forall_nil_2 _)).
Defined.

(** The stop word ["excel"] is not reported, and the two-word skill is not
    found in single-word tokens. *)
Example parse_doc_example :
  parse_doc lower_ascii example_doc
  = mk_parsed (Some "Ada Lovelace") (Some "ada@work.example") ["python"; "sql"].
Proof. vm_compute. done. Qed.

Lemma upload_rejected_changes_nothing_witness :
  upload_example (Some 1) (Some (mk_file "" "%PDF-1.4 ...")) "0f8fad5b" store0
  = (Completes (if decide (Some 1 ≫= (users store0 !!.) = None)
                then invalid_user_id else no_file_uploaded), store0, None).
Proof.
  assert (Some 1 ≫= (users store0 !!.) = None
          ∨ Some (mk_file "" "%PDF-1.4 ...") = None
          ∨ (∃ f, Some (mk_file "" "%PDF-1.4 ...") = Some f ∧ filename f = "")) as H
    by (right; right; by eexists).
  exact (upload_rejected_changes_nothing lower_ascii extract_text_example nlp_example
           secure_filename_example "uploads" (Some 1)
           (Some (mk_file "" "%PDF-1.4 ...")) "0f8fad5b" store0 H).
Defined.

Lemma upload_stores_resume_path_witness :
  let r := upload_example (Some 1) (Some cv_file) "0f8fad5b" store0 in
  let path := path_join "uploads"
                ("0f8fad5b" +:+ "_" +:+ secure_filename_example (filename cv_file)) in
  r.1.1 = Completes (jsonify [("message", JStr "Uploaded");
                              ("parsed_data",
                               parsed_json (parse_doc lower_ascii example_doc))] 200)
  ∧ r.2 = Some (path, content cv_file)
  ∧ users r.1.2 !! 1
    = Some (mk_User (email alice) (password alice) (user_location alice)
                    (experience alice) (Some path))
  ∧ (∀ k' u, k' ≠ 1 → users store0 !! k' = Some u → users r.1.2 !! k' = Some u)
  ∧ dom (users r.1.2) = dom (users store0)
  ∧ commits r.1.2 = applications store0 :: commits store0.
Proof.
  assert (filename cv_file ≠ "") as H by discriminate.
  exact (upload_stores_resume_path lower_ascii extract_text_example nlp_example
           secure_filename_example "uploads" 1 cv_file "0f8fad5b" store0 alice
           (parse_doc lower_ascii example_doc) eq_refl H eq_refl).
Defined.

Example upload_path_example :
  (upload_example (Some 1) (Some cv_file) "0f8fad5b" store0).2
  = Some ("uploads/0f8fad5b_cv.pdf", "%PDF-1.4 ...").
Proof. vm_compute. done. Qed.

Lemma upload_unreadable_file_witness :
  upload_example (Some 1) (Some (mk_file "notes.txt" "hello")) "0f8fad5b" store0
  = (Fails ExtractionError, store0,
     Some (path_join "uploads"
             ("0f8fad5b" +:+ "_" +:+ secure_filename_example "notes.txt"),
           "hello")).
Proof.
  assert (filename (mk_file "notes.txt" "hello") ≠ "") as H by discriminate.
  exact (upload_unreadable_file lower_ascii extract_text_example nlp_example
           secure_filename_example "uploads" 1 (mk_file "notes.txt" "hello")
           "0f8fad5b" store0 alice eq_refl H eq_refl).
Defined.

Lemma upload_then_execute_witness :
  let r := upload_example (Some 1) (Some cv_file) "0f8fad5b" store0 in
  let path := path_join "uploads"
                ("0f8fad5b" +:+ "_" +:+ secure_filename_example (filename cv_file)) in
  r.2 = Some (path, content cv_file)
  ∧ selenium_calls (execute_application t2026 true 1 1 r.1.2).2
    = (apply_link job_ds, Some path) :: selenium_calls store0.
Proof.
  assert (filename cv_file ≠ "") as H by discriminate.
  exact (upload_then_execute lower_ascii extract_text_example nlp_example
           secure_filename_example "uploads" 1 cv_file "0f8fad5b" t2026 true 1
           store0 alice (parse_doc lower_ascii example_doc) job_ds
           eq_refl H eq_refl eq_refl).
Defined.
